(** * deploy_with_testflinger: overprovision, monitor, cancel, verify

    A shallow embedding of [deploy_with_testflinger.py] and the properties
    its specification states about it.

    The program drives an external command line client, an HTTP inventory
    and the file system.  Every answer of the outside world is taken from
    an environment [Env]; every effect the program has on the outside world
    is appended to a trace.  The theorems quantify over all environments,
    so they hold whatever the outside world answers.

    The first part of the file holds the model, the second the properties. *)

From Stdlib Require Import ZArith List String Ascii Lia Permutation Sorted Bool.
From stdpp Require Import base gmap strings list.

(** ** Python string operations used by the program *)

Module PyStr.

(** [str.isspace] on the ASCII range: TAB, LF, VT, FF, CR, the four
    separators FS..US and the space. *)
Definition is_space (c : ascii) : bool :=
  let n := nat_of_ascii c in
  ((9 <=? n)%nat && (n <=? 13)%nat) || ((28 <=? n)%nat && (n <=? 32)%nat).

Fixpoint lstrip (s : string) : string :=
  match s with
  | EmptyString => EmptyString
  | String c t => if is_space c then lstrip t else s
  end.

Fixpoint rstrip (s : string) : string :=
  match s with
  | EmptyString => EmptyString
  | String c t =>
      match rstrip t with
      | EmptyString => if is_space c then EmptyString else String c EmptyString
      | t' => String c t'
      end
  end.

(** [s.strip()] *)
Definition strip (s : string) : string := rstrip (lstrip s).

(** [needle in hay] on [str] *)
Fixpoint contains (needle hay : string) : bool :=
  String.prefix needle hay
  || match hay with
     | EmptyString => false
     | String _ t => contains needle t
     end.

(** [s.split(sep)] for a separator of one character: every occurrence
    cuts, so two separators in a row give an empty field. *)
Fixpoint split (sep : ascii) (s : string) : list string :=
  match s with
  | EmptyString => [EmptyString]
  | String c t =>
      if Ascii.eqb c sep then EmptyString :: split sep t
      else match split sep t with
           | w :: ws => String c w :: ws
           | [] => [String c EmptyString]
           end
  end.

(** [s.endswith(suffix)] *)
Fixpoint endswith (suffix s : string) : bool :=
  String.eqb suffix s
  || match s with
     | EmptyString => false
     | String _ t => endswith suffix t
     end.

(** [l[:n]]: a negative [n] counts from the end. *)
Definition slice_to {A : Type} (l : list A) (n : Z) : list A :=
  if (0 <=? n)%Z then take (Z.to_nat n) l
  else take (length l - Z.to_nat (- n))%nat l.

(** [l[-k]] for [k >= 1]; [None] stands for [IndexError]. *)
Definition neg_index {A : Type} (l : list A) (k : nat) : option A :=
  if (k <=? length l)%nat then l !! (length l - k)%nat else None.

(** [not s]: the empty string is the only falsy one. *)
Definition falsy (s : string) : bool :=
  match s with EmptyString => true | _ => false end.

(** [" ".join(l)] *)
Fixpoint join_space (l : list string) : string :=
  match l with
  | [] => EmptyString
  | [x] => x
  | x :: r => String.append x (String " "%char (join_space r))
  end.

End PyStr.

(** ** Data model *)

(** The dictionary [{"ip": .., "job_id": .., "name": ..}] a monitor emits. *)
Record result := Result { ip : string; job_id : string; name : string }.

(** The exceptions the program raises and catches.  [JobAlreadyCancelledError]
    subclasses [TestflingerError]; [KeyError] is an [Exception] outside that
    family. *)
Inductive exn := TestflingerError | JobAlreadyCancelledError | KeyError.

Definition is_TestflingerError (e : exn) : bool :=
  match e with
  | TestflingerError | JobAlreadyCancelledError => true
  | KeyError => false
  end.

Definition is_JobAlreadyCancelledError (e : exn) : bool :=
  match e with JobAlreadyCancelledError => true | _ => false end.

(** What [subprocess.check_output] does: return the output of a command that
    exits with status 0, raise [CalledProcessError] (with the captured output
    [e.output] and the text [str(e)]) or raise [TimeoutExpired].  These are
    the outcomes [call_testflinger] tells apart.  A client that cannot be
    started ([OSError]) and output that does not decode are outside the
    model: the program has no handler for them short of the one in [run]. *)
Inductive proc_result :=
| Exited0 (out : string)
| CalledProcessError (out : string) (str_e : string)
| TimeoutExpired.

(** Effects on the outside world, in the order the program has them. *)
Inductive event :=
| Exec (argv : list string)          (* subprocess.check_output(argv) *)
| Remove (path : string)             (* os.remove(path) *)
| WriteYaml (path : string)          (* a job description written *)
| WriteCancelScript (ids : list string)
| Print (text : list result) (addresses : string).

(** One entry of the agent inventory; [None] is an absent key. *)
Module Inventory.
Record entry := Entry {
  name : option string;
  state : option string;
  queues : option (list string);
  provision_streak_count : option Z;
  provision_streak_type : option string
}.
End Inventory.

(** [{"name": .., "streak": ..}] *)
Record agent := Agent { agent_name : string; streak : Z }.

(** What one turn of the reading loop of a monitor meets: a line read and
    written to the capture file, a line read whose write raises, or a
    [readline] that raises ([ValueError] or [IOError]). *)
Inductive poll_event :=
| Out (raw : string)
| OutWriteFails (raw : string)
| ReadRaises.

(** How rendering one job description ends: written, failed before the file
    was opened (no file), or failed after it was opened (an empty file). *)
Inductive render_outcome := Rendered | FailsBeforeOpen | FailsAfterOpen.

(** The monitors run in worker threads.  What they and the orchestrator do
    to the shared state happens in steps that the scheduler orders:
    - [Exits job open_raises events]: the worker of [job] runs
      [monitor_subjob] to its end; [events] is what its reading loop met
      before the polled process ended;
    - [Watch job]: the watcher of [job] ([check_cancellation]) sees the
      token set and calls [safe_cancel_job]; the watcher looks at the token
      as long as it has seen the polled process alive, and the step is
      allowed whenever the token is set;
    - [Yield job]: [as_completed] hands the finished future of [job] to the
      loop of [monitor_subjobs]. *)
Inductive action :=
| Exits (job : string) (open_raises : bool) (events : list poll_event)
| Watch (job : string)
| Yield (job : string).

(** Everything the outside world decides. *)
Record Env := {
  check_output : list event -> list string -> proc_result;
  servers_file : option (list string);          (* None: OSError on open *)
  inventory : option (list Inventory.entry);    (* None: see get_agent_data *)
  randbelow : nat -> nat;                       (* raw draw of the k-th call *)
  remove_raises : list event -> string -> bool; (* os.remove raises OSError *)
  render : list event -> string -> render_outcome;
  extract_job_id : string -> string;            (* re.sub(..).strip() *)
  cancel_script_raises : bool;
  schedule : list action
}.

(** The submitter object together with the part of the outside world it
    changes. *)
Record world := World {
  cancelled_jobs : gset string;
  job_ids : list string;
  result_queue : list result;    (* oldest first *)
  output_dir : list string;      (* regular files of OUTPUT_DIR, by name *)
  trace : list event             (* oldest first *)
}.

(** [self.cancelled_jobs.add(job)] *)
Definition add_cancelled (job : string) (w : world) : world :=
  World ({[ job ]} ∪ cancelled_jobs w) (job_ids w) (result_queue w)
        (output_dir w) (trace w).
Definition set_job_ids (j : list string) (w : world) : world :=
  World (cancelled_jobs w) j (result_queue w) (output_dir w) (trace w).
Definition set_result_queue (q : list result) (w : world) : world :=
  World (cancelled_jobs w) (job_ids w) q (output_dir w) (trace w).
Definition set_output_dir (d : list string) (w : world) : world :=
  World (cancelled_jobs w) (job_ids w) (result_queue w) d (trace w).
Definition emit (e : event) (w : world) : world :=
  World (cancelled_jobs w) (job_ids w) (result_queue w) (output_dir w)
        (trace w ++ [e]).

(** ** A state and exception monad *)

Inductive res (A : Type) := Ok (a : A) | Raise (e : exn).
Arguments Ok {A} a.
Arguments Raise {A} e.

Definition M (A : Type) : Type := world -> res A * world.

Definition ret {A} (a : A) : M A := fun w => (Ok a, w).
Definition raise {A} (e : exn) : M A := fun w => (Raise e, w).
Definition bind {A B} (c : M A) (k : A -> M B) : M B :=
  fun w => match c w with
           | (Ok a, w') => k a w'
           | (Raise e, w') => (Raise e, w')
           end.
(** [try: c  except E1: h1  except E2: h2 ...]: the first clause that
    matches handles the exception; what a handler raises is not handled by
    its siblings. *)
Definition handler (A : Type) : Type := (exn -> bool) * (exn -> M A).
Fixpoint dispatch {A} (clauses : list (handler A)) (e : exn) : M A :=
  match clauses with
  | [] => raise e
  | (matches, h) :: rest => if matches e then h e else dispatch rest e
  end.
Definition try_except {A} (c : M A) (clauses : list (handler A)) : M A :=
  fun w => match c w with
           | (Raise e, w') => dispatch clauses e w'
           | r => r
           end.
Definition get : M world := fun w => (Ok w, w).
Definition modify (f : world -> world) : M unit := fun w => (Ok tt, f w).

Declare Scope py_scope.
Delimit Scope py_scope with py.
Notation "'let*' x ':=' c 'in' k" := (bind c (fun x => k))
  (at level 10, x name, c at level 100, k at level 200) : py_scope.
Local Open Scope py_scope.

(** ** Job client *)

Definition already_terminal_phrase : string :=
  "Invalid job ID specified or the job is already completed/cancelled".

Section Program.

Variable env : Env.

(** [call_testflinger(command)] *)
Definition call_testflinger (command : list string) : M string :=
  let cmd := "testflinger-cli"%string :: command in
  let* w := get in
  let* _ := modify (emit (Exec cmd)) in
  match check_output env (trace w) cmd with
  | Exited0 out => ret out
  | CalledProcessError out str_e =>
      let output := if PyStr.falsy out then str_e else out in
      if match command with
         | c0 :: _ => String.eqb c0 "cancel"
         | [] => false
         end && PyStr.contains already_terminal_phrase output
      then raise JobAlreadyCancelledError
      else raise TestflingerError
  | TimeoutExpired => raise TestflingerError
  end.

(** [is_job_running(job_id)] *)
Definition is_job_running (job : string) : M bool :=
  try_except
    (let* output := call_testflinger ["status"%string; job] in
     if PyStr.contains "completed" output || PyStr.contains "cancelled" output
     then ret false
     else ret true)
    [(is_TestflingerError, fun _ => ret false)].

(** [safe_cancel_job(job_id)]; the body runs with [job_state_lock] held,
    so a call is one atomic step on the world. *)
Definition safe_cancel_job (job : string) : M bool :=
  let* w := get in
  if bool_decide (job ∈ cancelled_jobs w) then ret false
  else
    let* running := is_job_running job in
    if negb running then
      let* _ := modify (add_cancelled job) in
      ret false
    else
      try_except
        (let* _ := call_testflinger ["cancel"%string; job] in
         let* _ := modify (add_cancelled job) in
         ret true)
        [(is_JobAlreadyCancelledError,
          fun _ => let* _ := modify (add_cancelled job) in ret false);
         (is_TestflingerError, fun _ => ret false)].

(** [verify_results(results)]: the loop body, then the loop. *)
Definition verify_one (r : result) (valid_results : list result)
  : M (list result) :=
  try_except
    (if PyStr.falsy (job_id r) then ret valid_results
     else
       let* output := call_testflinger ["status"%string; job_id r] in
       if negb (PyStr.contains "reserve" output) then
         let* _ := safe_cancel_job (job_id r) in
         ret valid_results
       else ret (valid_results ++ [r]))
    [(is_TestflingerError, fun _ => ret valid_results)].

Fixpoint verify_loop (results : list result) (valid_results : list result)
  : M (list result) :=
  match results with
  | [] => ret valid_results
  | r :: rest =>
      let* valid_results' := verify_one r valid_results in
      verify_loop rest valid_results'
  end.

Definition verify_results (results : list result) : M (list result) :=
  verify_loop results [].

(** ** Agent selector *)

(** [get_agent_data()].  [None] stands for the failures that lines 236-247
    turn into [TestflingerError]: a status other than 200, [URLError] and
    [JSONDecodeError].  Other failures of the fetch (a time-out while
    reading, a dropped connection, a body that does not decode) leave the
    function as they are and are outside the model. *)
Definition get_agent_data : M (list Inventory.entry) :=
  match inventory env with
  | Some data => ret data
  | None => raise TestflingerError
  end.

(** [any(server in entry.get("queues", []) for server in servers)] *)
Definition in_target_servers (servers : list string) (entry : Inventory.entry)
  : bool :=
  existsb (fun server => bool_decide (server ∈ default [] (Inventory.queues entry)))
          servers.

(** The streak of an entry: the [try] block of lines 279-285, where a
    missing [provision_streak_count] raises the [KeyError] that sets 0. *)
Definition signed_streak (entry : Inventory.entry) : Z :=
  match Inventory.provision_streak_count entry with
  | Some count =>
      match Inventory.provision_streak_type entry with
      | Some streak_type =>
          if String.eqb streak_type "fail" then (- count)%Z else count
      | None => count
      end
  | None => 0%Z
  end.

(** The loop over the inventory; a missing ["name"] or ["state"] raises
    [KeyError] out of the function. *)
Fixpoint collect_agents (servers : list string) (data : list Inventory.entry)
         (agents : list agent) : res (list agent) :=
  match data with
  | [] => Ok agents
  | entry :: rest =>
      if negb (in_target_servers servers entry) then
        collect_agents servers rest agents
      else
        match Inventory.name entry with
        | None => Raise KeyError
        | Some name =>
            match Inventory.state entry with
            | None => Raise KeyError
            | Some state =>
                let streak := signed_streak entry in
                if String.eqb state "waiting"
                then collect_agents servers rest (agents ++ [Agent name streak])
                else collect_agents servers rest agents
            end
        end
  end.

(** [sorted(agents, key=lambda x: x["streak"], reverse=True)]: stable,
    largest streak first. *)
Fixpoint insert_by_streak (a : agent) (l : list agent) : list agent :=
  match l with
  | [] => [a]
  | b :: l' =>
      if (streak b <=? streak a)%Z then a :: l
      else b :: insert_by_streak a l'
  end.

Definition sorted_by_streak (agents : list agent) : list agent :=
  foldr insert_by_streak [] agents.

(** [x[i], x[j] = x[j], x[i]] *)
Definition swap {A : Type} (x : list A) (i j : nat) : list A :=
  match x !! i, x !! j with
  | Some xi, Some xj => <[j := xi]> (<[i := xj]> x)
  | _, _ => x
  end.

(** [random.shuffle(x)]: for [i] from [len(x) - 1] down to 1, swap [x[i]]
    with [x[randbelow(i + 1)]]; the [k]-th draw is reduced below its
    bound. *)
Fixpoint shuffle_from {A : Type} (i k : nat) (x : list A) : list A :=
  match i with
  | O => x
  | S i' => shuffle_from i' (S k) (swap x i (randbelow env k mod (i + 1)))
  end.

Definition shuffle {A : Type} (x : list A) : list A :=
  shuffle_from (length x - 1) 0 x.

(** Lines 292-304: sort, split by sign, shuffle the positive ones. *)
Definition rank_agents (agents : list agent) : list agent :=
  let agents_sorted_by_streak := sorted_by_streak agents in
  let agents_with_positive_streaks :=
    List.filter (fun a => (0 <? streak a)%Z) agents_sorted_by_streak in
  let agents_with_negative_streaks :=
    List.filter (fun a => (streak a <=? 0)%Z) agents_sorted_by_streak in
  shuffle agents_with_positive_streaks ++ agents_with_negative_streaks.

(** [get_available_agents(servers)] *)
Definition get_available_agents (servers : list string) : M (list string) :=
  let* fetched :=
    try_except
      (let* data := get_agent_data in ret (Some data))
      [(is_TestflingerError, fun _ => ret None)]
  in
  match fetched with
  | None => ret []
  | Some data =>
      match collect_agents servers data [] with
      | Raise e => raise e
      | Ok agents => ret (map agent_name (rank_agents agents))
      end
  end.

(** ** Job generator and submitter *)

Definition OUTPUT_DIR : string := "output".

(** [os.path.join(OUTPUT_DIR, f)] *)
Definition in_output_dir (f : string) : string :=
  String.append OUTPUT_DIR (String.append "/" f).

(** [fnmatch.fnmatch(f, "testflinger-*.yaml")] *)
Definition is_job_file (f : string) : bool :=
  String.prefix "testflinger-" f && PyStr.endswith ".yaml" f
  && (17 <=? String.length f)%nat.

(** [get_yaml_files()] *)
Definition get_yaml_files : M (list string) :=
  let* w := get in
  ret (map in_output_dir (List.filter is_job_file (output_dir w))).

(** [delete_yaml_files()] *)
Fixpoint delete_each (names : list string) : M unit :=
  match names with
  | [] => ret tt
  | f :: rest =>
      let* w := get in
      let* _ := modify (emit (Remove (in_output_dir f))) in
      let* _ :=
        if remove_raises env (trace w) (in_output_dir f) then ret tt
        else modify (fun w =>
               set_output_dir
                 (List.filter (fun g => negb (String.eqb g f)) (output_dir w)) w)
      in
      delete_each rest
  end.

Definition delete_yaml_files : M unit :=
  let* w := get in
  delete_each (List.filter is_job_file (output_dir w)).

Definition job_file_of (agent : string) : string :=
  String.append "testflinger-" (String.append agent ".yaml").

Definition create_file (f : string) (w : world) : world :=
  if bool_decide (f ∈ output_dir w) then w
  else set_output_dir (output_dir w ++ [f]) w.

(** [generate_yaml_files(agents)] *)
Fixpoint generate_yaml_files (agents : list string) : M unit :=
  match agents with
  | [] => ret tt
  | agent :: rest =>
      let testflinger_filename := in_output_dir (job_file_of agent) in
      let* w := get in
      let* _ :=
        match render env (trace w) agent with
        | Rendered =>
            let* _ := modify (create_file (job_file_of agent)) in
            modify (emit (WriteYaml testflinger_filename))
        | FailsAfterOpen => modify (create_file (job_file_of agent))
        | FailsBeforeOpen => ret tt
        end
      in
      generate_yaml_files rest
  end.

(** [submit_jobs()] *)
Fixpoint submit_each (files : list string) (job_ids : list string)
  : M (list string) :=
  match files with
  | [] => ret job_ids
  | file :: rest =>
      let* job_ids' :=
        try_except
          (let* output := call_testflinger ["submit"%string; file] in
           ret (job_ids ++ [extract_job_id env output]))
          [(is_TestflingerError, fun _ => ret job_ids)]
      in
      submit_each rest job_ids'
  end.

Definition submit_jobs : M (list string) :=
  let* files := get_yaml_files in
  let* job_ids := submit_each files [] in
  let* _ := modify (set_job_ids job_ids) in
  ret job_ids.

(** [create_cancel_script()] *)
Definition create_cancel_script : M unit :=
  if cancel_script_raises env then ret tt
  else
    let* w := get in
    modify (emit (WriteCancelScript (job_ids w))).

(** [read_servers_file()] *)
Definition read_servers_file : M (list string) :=
  match servers_file env with
  | Some servers => ret servers
  | None => raise TestflingerError
  end.

(** ** Subjob monitor *)

Definition provision_marker : string :=
  "Starting testflinger provision phase on".
Definition connect_marker : string := "You can now connect to ubuntu@".
Definition linesep : string := String "010"%char EmptyString.

Definition set_name (n : string) (r : result) : result :=
  Result (ip r) (job_id r) n.
Definition set_ip (a : string) (r : result) : result :=
  Result a (job_id r) (name r).

(** Lines 430-437: the agent is the last field but one of the line. *)
Definition parse_name (output : string) (ret_val : result) : result :=
  if PyStr.contains provision_marker output then
    match PyStr.neg_index (PyStr.split " " output) 2 with
    | Some n => set_name n ret_val
    | None => ret_val
    end
  else ret_val.

(** The reading loop of [monitor_subjob] (lines 424-455).  The list holds
    what the loop meets while [process.poll()] is [None]; when it is used
    up the process has ended.  The loop gives the record, the lines written
    to the capture file and what it left unread. *)
Fixpoint read_loop (events : list poll_event) (ret_val : result)
         (file : list string) : result * list string * list poll_event :=
  match events with
  | [] => (ret_val, file, [])
  | ReadRaises :: rest => (ret_val, file, rest)
  | OutWriteFails raw :: rest =>
      let output := PyStr.strip raw in
      if PyStr.falsy output then read_loop rest ret_val file
      else (parse_name output ret_val, file, rest)
  | Out raw :: rest =>
      let output := PyStr.strip raw in
      if PyStr.falsy output then read_loop rest ret_val file
      else
        let ret_val := parse_name output ret_val in
        let file := file ++ [String.append output linesep] in
        if PyStr.contains connect_marker output then
          match PyStr.neg_index (PyStr.split "@" output) 1 with
          | Some address => (set_ip address ret_val, file, rest)
          | None => read_loop rest ret_val file
          end
        else read_loop rest ret_val file
  end.

(** [monitor_subjob(subjob, result_queue, output_directory,
    cancellation_token)], the part that runs in the worker itself;
    [is_cancelled] is what the token says when the [finally] block asks. *)
Definition monitor_subjob (subjob : string) (open_raises : bool)
           (events : list poll_event) (is_cancelled : bool) : M result :=
  let ret_val := Result "" subjob "" in
  let ret_val :=
    if open_raises then ret_val
    else (read_loop events ret_val []).1.1 in
  let* w := get in
  let* _ :=
    if is_cancelled && negb (bool_decide (subjob ∈ cancelled_jobs w))
    then let* _ := safe_cancel_job subjob in ret tt
    else ret tt
  in
  let* _ := modify (fun w => set_result_queue (result_queue w ++ [ret_val]) w) in
  ret ret_val.

(** ** Orchestrator *)

(** The local state of [monitor_subjobs]: the tokens, the futures that are
    done with what they returned, the tally, the futures already handled
    and whether the loop was left by [break].  Job identifiers are the
    keys: the service hands out distinct ones. *)
Record pool := Pool {
  cancellation_tokens : gmap string bool;
  done_futures : gmap string result;
  completed_count : Z;
  completed_futures : list string;
  left_loop : bool
}.

Definition new_pool (subjobs : list string) : pool :=
  Pool (list_to_map (map (fun subjob => (subjob, false)) subjobs)) ∅ 0 [] false.

(** Lines 543-549: every token but the one of [subjob] is set. *)
Definition cancel_remaining (subjob : string) (tokens : gmap string bool)
  : gmap string bool :=
  map_imap
    (fun remaining_subjob token =>
       Some (if negb (String.eqb remaining_subjob subjob) && negb token
             then true else token))
    tokens.

(** The body of the [as_completed] loop (lines 520-550). *)
Definition on_completion (completion_threshold : Z) (subjob : string)
           (r : result) (p : pool) : pool :=
  let completed_futures := completed_futures p ++ [subjob] in
  let completed_count :=
    if negb (PyStr.falsy (ip r)) then (completed_count p + 1)%Z
    else completed_count p in
  if (completion_threshold <=? completed_count)%Z then
    Pool (cancel_remaining subjob (cancellation_tokens p)) (done_futures p)
         completed_count completed_futures true
  else
    Pool (cancellation_tokens p) (done_futures p)
         completed_count completed_futures false.

Definition set_done (job : string) (r : result) (p : pool) : pool :=
  Pool (cancellation_tokens p) (<[job := r]> (done_futures p))
       (completed_count p) (completed_futures p) (left_loop p).

(** One step of the monitoring phase. *)
Definition step (completion_threshold : Z) (a : action) (p : pool) : M pool :=
  match a with
  | Exits job open_raises events =>
      match cancellation_tokens p !! job, done_futures p !! job with
      | Some token, None =>
          let* r := monitor_subjob job open_raises events token in
          ret (set_done job r p)
      | _, _ => ret p
      end
  | Watch job =>
      match cancellation_tokens p !! job with
      | Some true => let* _ := safe_cancel_job job in ret p
      | _ => ret p
      end
  | Yield job =>
      if left_loop p || bool_decide (job ∈ completed_futures p) then ret p
      else
        match done_futures p !! job with
        | Some r => ret (on_completion completion_threshold job r p)
        | None => ret p
        end
  end.

Fixpoint steps (completion_threshold : Z) (actions : list action) (p : pool)
  : M pool :=
  match actions with
  | [] => ret p
  | a :: rest =>
      let* p' := step completion_threshold a p in
      steps completion_threshold rest p'
  end.

(** [monitor_subjobs(subjobs, result_queue, output_directory,
    completion_threshold)] under the schedule of the environment. *)
Definition monitor_subjobs (subjobs : list string) (completion_threshold : Z)
  : M Z :=
  let* p := steps completion_threshold (schedule env) (new_pool subjobs) in
  ret (completed_count p).

(** Lines 688-690 *)
Fixpoint cancel_all (job_ids : list string) : M unit :=
  match job_ids with
  | [] => ret tt
  | job :: rest =>
      let* w := get in
      let* _ :=
        if negb (bool_decide (job ∈ cancelled_jobs w))
        then let* _ := safe_cancel_job job in ret tt
        else ret tt
      in
      cancel_all rest
  end.

(** Lines 694-699: the queue is emptied into [results]. *)
Definition drain_queue : M (list result) :=
  let* w := get in
  let* _ := modify (set_result_queue []) in
  ret (result_queue w).

(** [run()] *)
Definition run (agent_limit completion_threshold : Z) : M Z :=
  try_except
    (let* servers := read_servers_file in
     let* ranked := get_available_agents servers in
     let agents := PyStr.slice_to ranked agent_limit in
     if (Z.of_nat (length agents) <? agent_limit)%Z then ret 1%Z
     else
       let* _ := delete_yaml_files in
       let* _ := generate_yaml_files agents in
       let* submitted := submit_jobs in
       let* _ := modify (set_job_ids submitted) in
       match submitted with
       | [] => ret 1%Z
       | _ =>
           let* _ := create_cancel_script in
           let* completion_count :=
             monitor_subjobs submitted completion_threshold in
           if (completion_count <? completion_threshold)%Z then
             let* _ := cancel_all submitted in
             ret 1%Z
           else
             let* results := drain_queue in
             let* valid_results := verify_results results in
             let ip_addresses :=
               List.filter (fun a => negb (PyStr.falsy a))
                           (map ip valid_results) in
             let* _ := modify (emit (Print valid_results
                                           (PyStr.join_space ip_addresses))) in
             ret 0%Z
       end)
    [(is_TestflingerError, fun _ => ret 1%Z);
     (fun _ => true, fun _ => ret 1%Z)].

End Program.

(** ** Notions used to state the properties *)

Definition cli (command : list string) : list string :=
  "testflinger-cli"%string :: command.
Definition status_of (job : string) : event := Exec (cli ["status"%string; job]).
Definition cancel_of (job : string) : event := Exec (cli ["cancel"%string; job]).

(** What the specification calls [isRunning]: the answer to a status query
    put now has neither marker; a query that fails counts as not running. *)
Definition isRunning (env : Env) (job : string) (w : world) : bool :=
  match check_output env (trace w) (cli ["status"%string; job]) with
  | Exited0 out =>
      negb (PyStr.contains "completed" out || PyStr.contains "cancelled" out)
  | _ => false
  end.

(** The three ways the specification lets a cancel command end. *)
Inductive cancel_outcome := Cancelled | AlreadyTerminalError | CommandFailure.

Definition cancelOutcome (env : Env) (job : string) (w : world) : cancel_outcome :=
  match check_output env (trace w) (cli ["cancel"%string; job]) with
  | Exited0 _ => Cancelled
  | CalledProcessError out str_e =>
      if PyStr.contains already_terminal_phrase
                        (if PyStr.falsy out then str_e else out)
      then AlreadyTerminalError else CommandFailure
  | TimeoutExpired => CommandFailure
  end.

(** [safeCancel] as the specification words it, on the world directly. *)
Definition safeCancel (env : Env) (job : string) (w : world) : bool * world :=
  if bool_decide (job ∈ cancelled_jobs w) then (false, w)
  else
    let asked := emit (status_of job) w in
    if negb (isRunning env job w) then (false, add_cancelled job asked)
    else
      let tried := emit (cancel_of job) asked in
      match cancelOutcome env job asked with
      | Cancelled => (true, add_cancelled job tried)
      | AlreadyTerminalError => (false, add_cancelled job tried)
      | CommandFailure => (false, tried)
      end.

(** A sequence of calls of [safe_cancel_job], on any identifiers, one after
    the other as the lock orders them; each call is kept with its answer. *)
Fixpoint safe_cancel_calls (env : Env) (jobs : list string) (w : world)
  : list (string * res bool) * world :=
  match jobs with
  | [] => ([], w)
  | job :: rest =>
      let '(answer, w') := safe_cancel_job env job w in
      let '(answers, w'') := safe_cancel_calls env rest w' in
      ((job, answer) :: answers, w'')
  end.

Definition returned_true (job : string) (call : string * res bool) : bool :=
  String.eqb call.1 job
  && match call.2 with Ok true => true | _ => false end.

(** How often a cancel command for [job] was run. *)
Definition cancel_commands (job : string) (t : list event) : nat :=
  length (List.filter
            (fun e => match e with
                      | Exec argv =>
                          bool_decide (argv = cli ["cancel"%string; job])
                      | _ => false
                      end) t).

(** A line that starts the provision phase on [agent], as the monitor reads
    it: it carries the phrase, the agent is its last field but one, and it
    is not at the same time a connect line. *)
Definition phase_start_line (raw agent : string) : Prop :=
  PyStr.contains provision_marker (PyStr.strip raw) = true
  ∧ PyStr.neg_index (PyStr.split " " (PyStr.strip raw)) 2 = Some agent
  ∧ PyStr.contains connect_marker (PyStr.strip raw) = false.

(** A connect line for [address]: it carries the phrase, the address is what
    follows its last [@], and it is not at the same time a phase start. *)
Definition connect_line (raw address : string) : Prop :=
  PyStr.contains connect_marker (PyStr.strip raw) = true
  ∧ PyStr.neg_index (PyStr.split "@" (PyStr.strip raw)) 1 = Some address
  ∧ PyStr.contains provision_marker (PyStr.strip raw) = false.

Definition no_connect (raw : string) : Prop :=
  PyStr.contains connect_marker (PyStr.strip raw) = false.
Definition no_phase_start (raw : string) : Prop :=
  PyStr.contains provision_marker (PyStr.strip raw) = false.

(** Largest streak first. *)
Definition streak_ge (a b : agent) : Prop := (streak b <= streak a)%Z.

(** ** Environments and worlds for the examples *)

Definition empty_world : world := World ∅ [] [] [] [].

(** The service answers every command with [answer]. *)
Definition constant_env (answer : proc_result) (data : list Inventory.entry)
           (sched : list action) : Env :=
  {| check_output := fun _ _ => answer;
     servers_file := Some ["pool"%string];
     inventory := Some data;
     randbelow := fun k => k;
     remove_raises := fun _ _ => false;
     render := fun _ _ => Rendered;
     extract_job_id := fun output => output;
     cancel_script_raises := false;
     schedule := sched |}.

(** The service knows every job as reserved. *)
Definition reserved_env (sched : list action) : Env :=
  constant_env (Exited0 "reserved") [] sched.

(** Every command fails with an exit status that is not 0. *)
Definition failing_env : Env :=
  constant_env (CalledProcessError "error" "exit status 1") [] [].

(** The two lines of the client that the monitor looks for. *)
Definition banner_line (agent : string) : string :=
  String.append "* Starting testflinger provision phase on "
                (String.append agent " *").
Definition ready_line (address : string) : string :=
  String.append connect_marker address.

(** Three jobs and a threshold of two: [a] succeeds and is handled, then
    [b] succeeds and is handled, while [c] is still being provisioned. *)
Definition race_jobs : list string := ["a"; "b"; "c"]%string.
Definition race_schedule : list action :=
  [ Exits "a" false [Out (ready_line "10.0.0.1")]; Yield "a";
    Exits "b" false [Out (ready_line "10.0.0.2")]; Yield "b" ].

(** An inventory with two waiting agents of the pool. *)
Definition two_agents : list Inventory.entry :=
  [ Inventory.Entry (Some "a1"%string) (Some "waiting"%string)
                    (Some ["pool"%string]) (Some 2%Z) (Some "pass"%string);
    Inventory.Entry (Some "a2"%string) (Some "waiting"%string)
                    (Some ["pool"%string]) (Some 1%Z) (Some "fail"%string) ].

(** A service that hands out the submitted file as job identifier and
    reports a job as reserved until a cancel command was run for it. *)
Definition service (t : list event) (argv : list string) : proc_result :=
  match argv with
  | [_; command; x] =>
      if String.eqb command "submit" then Exited0 x
      else if String.eqb command "status" then
        Exited0 (if (0 <? cancel_commands x t)%nat then "cancelled"
                 else "reserved")
      else Exited0 "ok"
  | _ => TimeoutExpired
  end.

Definition job1 : string := "output/testflinger-a1.yaml".
Definition job2 : string := "output/testflinger-a2.yaml".

(** Two agents, two jobs: the first job gets its endpoint and is handled;
    with a threshold of one that sets the token of the second job, whose
    watcher cancels it and whose monitor ends without an endpoint. *)
Definition overprovision_env : Env :=
  {| check_output := service;
     servers_file := Some ["pool"%string];
     inventory := Some two_agents;
     randbelow := fun k => k;
     remove_raises := fun _ _ => false;
     render := fun _ _ => Rendered;
     extract_job_id := fun output => output;
     cancel_script_raises := false;
     schedule := [ Exits job1 false [Out (ready_line "10.0.0.1")]; Yield job1;
                   Watch job2; Exits job2 false [Out "Provisioning"] ] |}.

(** ** Notions used to state the further properties *)

(** A cancel command of the client. *)
Definition is_cancel (e : event) : bool :=
  match e with
  | Exec [c; k; _] => String.eqb c "testflinger-cli" && String.eqb k "cancel"
  | _ => false
  end.

(** A stretch of trace in which every cancel command comes right after the
    status query of the same job. *)
Inductive guarded : list event → Prop :=
| guarded_nil : guarded []
| guarded_other (e : event) (t : list event) :
    is_cancel e = false → guarded t → guarded (e :: t)
| guarded_cancel (job : string) (t : list event) :
    guarded t → guarded (status_of job :: cancel_of job :: t).

(** From [w] to [w']: the cancelled set has not lost a job, and the trace
    has grown by a guarded stretch. *)
Definition evolves (w w' : world) : Prop :=
  cancelled_jobs w ⊆ cancelled_jobs w'
  ∧ ∃ t, trace w' = trace w ++ t ∧ guarded t.

(** A computation that makes every world evolve. *)
Definition steady {A : Type} (c : M A) : Prop := ∀ w, evolves w (c w).2.

(** What a turn of the reading loop adds to the capture file: the stripped
    line and a newline for a line that is not blank and whose write
    succeeds, nothing otherwise. *)
Definition captured_line (e : poll_event) : option string :=
  match e with
  | Out raw =>
      if PyStr.falsy (PyStr.strip raw) then None
      else Some (String.append (PyStr.strip raw) linesep)
  | _ => None
  end.

(** The separator as a string of one character. *)
Definition one_char (c : ascii) : string := String c EmptyString.

(** What the selector makes of an inventory entry that has its keys: an
    agent with its signed streak when the entry is waiting. *)
Definition to_agent (entry : Inventory.entry) : option agent :=
  match Inventory.name entry, Inventory.state entry with
  | Some n, Some s =>
      if String.eqb s "waiting" then Some (Agent n (signed_streak entry))
      else None
  | _, _ => None
  end.

(** The entry has the two keys the selector reads without a default. *)
Definition has_keys (entry : Inventory.entry) : Prop :=
  is_Some (Inventory.name entry) ∧ is_Some (Inventory.state entry).

(** Agents with the streak [k]. *)
Definition with_streak (k : Z) (a : agent) : bool := (streak a =? k)%Z.

(** The submit command for a job description. *)
Definition submit_of (file : string) : event := Exec (cli ["submit"%string; file]).

(** The job descriptions that [get_yaml_files] finds in a world. *)
Definition listed (w : world) : list string :=
  map in_output_dir (List.filter is_job_file (output_dir w)).

(** Files of the output directory that are no job descriptions. *)
Definition other_files (w : world) : list string :=
  List.filter (fun f => negb (is_job_file f)) (output_dir w).

(** What holds of the local state of [monitor_subjobs] all along, for the
    jobs [subjobs] and the threshold [threshold]:
    - the tokens are those of the jobs, and only jobs have futures;
    - no future is handled twice, and only finished ones are handled;
    - the tally is at most the number of futures handled, and at most the
      threshold (or one, for a threshold below one);
    - before the loop is left no token is set and the tally is below the
      threshold (or nothing was handled yet);
    - after it was left the tally has reached the threshold, and the tokens
      set are those of all jobs but the one handled last. *)
Definition pool_inv (subjobs : list string) (threshold : Z) (p : pool) : Prop :=
  (∀ j, is_Some (cancellation_tokens p !! j) ↔ j ∈ subjobs)
  ∧ (∀ j, is_Some (done_futures p !! j) → j ∈ subjobs)
  ∧ NoDup (completed_futures p)
  ∧ (∀ j, j ∈ completed_futures p → is_Some (done_futures p !! j))
  ∧ (0 <= completed_count p <= Z.of_nat (length (completed_futures p)))%Z
  ∧ (completed_count p <= Z.max threshold 1)%Z
  ∧ if left_loop p then
      (threshold <= completed_count p)%Z
      ∧ ∃ trigger,
          last (completed_futures p) = Some trigger
          ∧ ∀ j token, cancellation_tokens p !! j = Some token →
                       token = negb (String.eqb j trigger)
    else
      (∀ j token, cancellation_tokens p !! j = Some token → token = false)
      ∧ ((completed_count p < threshold)%Z ∨ completed_futures p = []).


(** ** Further environments and worlds for the examples *)

(** An entry of the pool that has no name. *)
Definition nameless_entry : Inventory.entry :=
  Inventory.Entry None (Some "waiting"%string) (Some ["pool"%string]) None None.

Definition nameless_env : Env :=
  constant_env TimeoutExpired (two_agents ++ [nameless_entry]) [].

(** The servers file cannot be read. *)
Definition no_servers_env : Env :=
  {| check_output := fun _ _ => TimeoutExpired;
     servers_file := None;
     inventory := Some two_agents;
     randbelow := fun k => k;
     remove_raises := fun _ _ => false;
     render := fun _ _ => Rendered;
     extract_job_id := fun output => output;
     cancel_script_raises := false;
     schedule := [] |}.

(** The inventory cannot be fetched. *)
Definition no_inventory_env : Env :=
  {| check_output := fun _ _ => TimeoutExpired;
     servers_file := Some ["pool"%string];
     inventory := None;
     randbelow := fun k => k;
     remove_raises := fun _ _ => false;
     render := fun _ _ => Rendered;
     extract_job_id := fun output => output;
     cancel_script_raises := false;
     schedule := [] |}.

(** An output directory with a job description of an earlier run and a file
    of another kind. *)
Definition stale_world : world :=
  World ∅ [] [] ["testflinger-old.yaml"; "notes.txt"]%string [].

(** One job that ends without an endpoint. *)
Definition lone_schedule : list action :=
  [ Exits "a" false [Out "Provisioning"]; Yield "a" ].

(** ** Properties *)

Section JobClient.

Variable env : Env.

Lemma call_testflinger_eq (command : list string) (w : world) :
  call_testflinger env command w =
    (match check_output env (trace w) (cli command) with
     | Exited0 out => Ok out
     | CalledProcessError out str_e =>
         if match command with
            | c0 :: _ => String.eqb c0 "cancel"
            | [] => false
            end
            && PyStr.contains already_terminal_phrase
                              (if PyStr.falsy out then str_e else out)
         then Raise JobAlreadyCancelledError
         else Raise TestflingerError
     | TimeoutExpired => Raise TestflingerError
     end, emit (Exec (cli command)) w).
Proof.
  unfold call_testflinger, bind, get, modify, cli; simpl.
  destruct (check_output env (trace w) _) as [out|out str_e|]; simpl;
    try reflexivity.
  destruct (_ && _); reflexivity.
Qed.

Lemma is_job_running_eq (job : string) (w : world) :
  is_job_running env job w = (Ok (isRunning env job w), emit (status_of job) w).
Proof.
  unfold is_job_running, try_except, bind, isRunning, status_of.
  rewrite call_testflinger_eq.
  destruct (check_output env (trace w) _) as [out|out str_e|]; simpl;
    try reflexivity.
  destruct (PyStr.contains "completed" out || PyStr.contains "cancelled" out);
    reflexivity.
Qed.

Lemma safe_cancel_job_eq (job : string) (w : world) :
  safe_cancel_job env job w =
    (Ok (safeCancel env job w).1, (safeCancel env job w).2).
Proof.
  unfold safe_cancel_job, safeCancel, bind, get; simpl.
  destruct (bool_decide (job ∈ cancelled_jobs w)); [reflexivity|].
  rewrite is_job_running_eq.
  destruct (isRunning env job w); simpl; [|reflexivity].
  unfold try_except, bind, cancelOutcome, cancel_of.
  rewrite call_testflinger_eq. simpl.
  destruct (check_output env _ _) as [out|out str_e|]; simpl;
    try reflexivity.
  destruct (PyStr.contains already_terminal_phrase _); reflexivity.
Qed.

End JobClient.

Section CancelledSet.

Variable env : Env.

Lemma safeCancel_member (job : string) (w : world) :
  job ∈ cancelled_jobs w → safeCancel env job w = (false, w).
Proof.
  intros Hin. unfold safeCancel.
  rewrite bool_decide_eq_true_2 by exact Hin. reflexivity.
Qed.

Lemma safeCancel_grows (j : string) (w : world) :
  cancelled_jobs w ⊆ cancelled_jobs (safeCancel env j w).2.
Proof.
  unfold safeCancel.
  destruct (bool_decide (j ∈ cancelled_jobs w)); simpl; [set_solver|].
  destruct (isRunning env j w); simpl; [|set_solver].
  destruct (cancelOutcome env j _); simpl; set_solver.
Qed.

Lemma safeCancel_true_marks (j : string) (w : world) :
  (safeCancel env j w).1 = true → j ∈ cancelled_jobs (safeCancel env j w).2.
Proof.
  unfold safeCancel.
  destruct (bool_decide (j ∈ cancelled_jobs w)); simpl; [discriminate|].
  destruct (isRunning env j w); simpl; [|discriminate].
  destruct (cancelOutcome env j _); simpl; try discriminate.
  intros _. set_solver.
Qed.

Lemma cancel_commands_snoc (job : string) (t : list event) (e : event) :
  cancel_commands job (t ++ [e]) =
    (cancel_commands job t
     + match e with
       | Exec argv => if bool_decide (argv = cli ["cancel"%string; job])
                      then 1 else 0
       | _ => 0
       end)%nat.
Proof.
  unfold cancel_commands. rewrite List.filter_app, length_app. simpl.
  destruct e as [argv| | | |]; simpl; try reflexivity.
  destruct (bool_decide (argv = _)); reflexivity.
Qed.

(** A call on another identifier, or on one already in the set, runs no
    cancel command for [job]. *)
Lemma safeCancel_no_cancel_command (job j : string) (w : world) :
  j ≠ job ∨ job ∈ cancelled_jobs w →
  cancel_commands job (trace (safeCancel env j w).2)
  = cancel_commands job (trace w).
Proof.
  intros Hcase. unfold safeCancel.
  destruct (bool_decide_reflect (j ∈ cancelled_jobs w)) as [Hj|Hj];
    simpl; [reflexivity|].
  assert (j ≠ job) as Hne.
  { destruct Hcase as [?|Hin]; [assumption|]. intros ->. contradiction. }
  assert (cancel_commands job (trace (emit (status_of j) w))
          = cancel_commands job (trace w)) as Hstatus.
  { simpl. rewrite cancel_commands_snoc. simpl. lia. }
  assert (cancel_commands job
            (trace (emit (cancel_of j) (emit (status_of j) w)))
          = cancel_commands job (trace w)) as Htried.
  { change (trace (emit (cancel_of j) (emit (status_of j) w)))
      with (trace (emit (status_of j) w) ++ [cancel_of j]).
    rewrite cancel_commands_snoc, Hstatus. simpl.
    rewrite bool_decide_eq_false_2; [lia|]. unfold cli. congruence. }
  destruct (isRunning env j w); simpl; [|exact Hstatus].
  destruct (cancelOutcome env j _); simpl; exact Htried.
Qed.

Lemma safe_cancel_calls_cons (j : string) (rest : list string) (w : world) :
  safe_cancel_calls env (j :: rest) w =
    ((j, Ok (safeCancel env j w).1)
       :: (safe_cancel_calls env rest (safeCancel env j w).2).1,
     (safe_cancel_calls env rest (safeCancel env j w).2).2).
Proof.
  simpl. rewrite safe_cancel_job_eq.
  destruct (safe_cancel_calls env rest _). reflexivity.
Qed.

(** Once [job] is in the set no call on it returns true, and no cancel
    command is run for it. *)
Lemma marked_stays_quiet (job : string) (jobs : list string) (w : world) :
  job ∈ cancelled_jobs w →
  List.filter (returned_true job) (safe_cancel_calls env jobs w).1 = []
  ∧ cancel_commands job (trace (safe_cancel_calls env jobs w).2)
    = cancel_commands job (trace w).
Proof.
  revert w. induction jobs as [|j rest IH]; intros w Hin; [split; reflexivity|].
  rewrite safe_cancel_calls_cons. simpl.
  assert (job ∈ cancelled_jobs (safeCancel env j w).2) as Hin'.
  { apply safeCancel_grows. exact Hin. }
  destruct (IH _ Hin') as [Hnone Htrace]. split.
  - unfold returned_true at 1. simpl.
    destruct (String.eqb_spec j job) as [->|Hne]; simpl; [|exact Hnone].
    rewrite (safeCancel_member job w Hin) in Hnone |- *. simpl. exact Hnone.
  - rewrite Htrace. apply safeCancel_no_cancel_command. right. exact Hin.
Qed.

Lemma granted_at_most_once (job : string) (jobs : list string) (w : world) :
  (length (List.filter (returned_true job) (safe_cancel_calls env jobs w).1)
   <= 1)%nat.
Proof.
  revert w. induction jobs as [|j rest IH]; intros w; [simpl; lia|].
  rewrite safe_cancel_calls_cons. simpl.
  unfold returned_true at 1. simpl.
  destruct (String.eqb_spec j job) as [->|Hne]; simpl; [|apply IH].
  destruct (safeCancel env job w).1 eqn:Hanswer; [|apply IH].
  apply safeCancel_true_marks in Hanswer.
  destruct (marked_stays_quiet job rest _ Hanswer) as [-> _]. simpl. lia.
Qed.

End CancelledSet.

(** C1.  Whatever the service answers and whatever calls on other
    identifiers come in between, in a sequence of calls of [safe_cancel_job]
    at most one call on [job] returns true; and from a world that has [job]
    in the cancelled set, no call on it returns true and the number of
    cancel commands run for it does not change. *)
Theorem safe_cancel_job_at_most_once (env : Env) (job : string)
        (jobs : list string) (w : world) :
  (length (List.filter (returned_true job) (safe_cancel_calls env jobs w).1)
   <= 1)%nat
  ∧ (job ∈ cancelled_jobs w →
     List.filter (returned_true job) (safe_cancel_calls env jobs w).1 = []
     ∧ cancel_commands job (trace (safe_cancel_calls env jobs w).2)
       = cancel_commands job (trace w)).
Proof.
  split.
  - apply granted_at_most_once.
  - apply marked_stays_quiet.
Qed.

(** C3.  [safe_cancel_job] is [safeCancel]: in the set already, false and
    nothing is run; else one status query, and when it says not running the
    identifier is added and the answer is false; else one cancel command,
    which adds the identifier and answers true when it succeeds, adds it and
    answers false when the job was already terminal, and leaves it out and
    answers false on any other failure.  It never raises. *)
Theorem safe_cancel_job_refines_safeCancel (env : Env) (job : string) (w : world) :
  safe_cancel_job env job w = (Ok (safeCancel env job w).1, (safeCancel env job w).2)
  ∧ (fst (safeCancel env job w) = true ↔
     ((job ∉ cancelled_jobs w)
      ∧ isRunning env job w = true
      ∧ cancelOutcome env job (emit (status_of job) w) = Cancelled))
  ∧ (job ∈ cancelled_jobs (snd (safeCancel env job w)) ↔
     (job ∈ cancelled_jobs w
      ∨ isRunning env job w = false
      ∨ cancelOutcome env job (emit (status_of job) w) ≠ CommandFailure)).
Proof.
  split; [apply safe_cancel_job_eq|].
  unfold safeCancel.
  destruct (bool_decide_reflect (job ∈ cancelled_jobs w)) as [Hin|Hout]; simpl.
  { split; [|tauto]. split; [discriminate|tauto]. }
  destruct (isRunning env job w); simpl.
  2:{ split; [split; [discriminate|intros (_ & ? & _); discriminate]|].
      split; [auto|intros _; set_solver]. }
  destruct (cancelOutcome env job _); simpl.
  - split; [tauto|]. split; [intros _; right; right; discriminate|intros _; set_solver].
  - split; [split; [discriminate|intros (_ & _ & ?); discriminate]|].
    split; [intros _; right; right; discriminate|intros _; set_solver].
  - split; [split; [discriminate|intros (_ & _ & ?); discriminate]|].
    split; [intros ?; contradiction|].
    intros [?|[?|?]]; [contradiction|discriminate|congruence].
Qed.

Lemma falsy_nonempty (s : string) : s ≠ ""%string → PyStr.falsy s = false.
Proof. destruct s; [contradiction|reflexivity]. Qed.

Section Verification.

Variable env : Env.

Lemma verify_one_eq (r : result) (valid_results : list result) (w : world) :
  verify_one env r valid_results w =
    if PyStr.falsy (job_id r) then (Ok valid_results, w)
    else
      let asked := emit (status_of (job_id r)) w in
      match check_output env (trace w) (cli ["status"%string; job_id r]) with
      | Exited0 out =>
          if PyStr.contains "reserve" out
          then (Ok (valid_results ++ [r]), asked)
          else (Ok valid_results, (safeCancel env (job_id r) asked).2)
      | _ => (Ok valid_results, asked)
      end.
Proof.
  unfold verify_one, try_except.
  destruct (PyStr.falsy (job_id r)); [reflexivity|].
  unfold bind. rewrite call_testflinger_eq. unfold status_of.
  destruct (check_output env (trace w) _) as [out|out str_e|]; simpl;
    try reflexivity.
  destruct (PyStr.contains "reserve" out); simpl; [reflexivity|].
  rewrite safe_cancel_job_eq. reflexivity.
Qed.

Lemma verify_loop_cons (r : result) (rest valid_results : list result)
      (w : world) :
  verify_loop env (r :: rest) valid_results w =
    verify_loop env rest (match (verify_one env r valid_results w).1 with
                          | Ok v => v
                          | Raise _ => valid_results
                          end)
                (verify_one env r valid_results w).2.
Proof.
  simpl. unfold bind at 1. rewrite verify_one_eq.
  destruct (PyStr.falsy (job_id r)); [reflexivity|].
  destruct (check_output env (trace w) _) as [out|out str_e|]; simpl;
    try reflexivity.
  destruct (PyStr.contains "reserve" out); reflexivity.
Qed.

End Verification.


(** C10.  When the status query of the verification pass fails, the record
    is not added to the valid results, the cancelled set stays as it was,
    no cancel command is run, and the pass goes on with the other records. *)
Theorem verify_results_skips_on_query_failure (env : Env) (r : result)
        (rest valid_results : list result) (w : world) :
  job_id r ≠ ""%string →
  (∀ out, check_output env (trace w) (cli ["status"%string; job_id r])
          ≠ Exited0 out) →
  let asked := emit (status_of (job_id r)) w in
  verify_one env r valid_results w = (Ok valid_results, asked)
  ∧ cancelled_jobs asked = cancelled_jobs w
  ∧ (∀ job, cancel_commands job (trace asked) = cancel_commands job (trace w))
  ∧ verify_loop env (r :: rest) valid_results w
    = verify_loop env rest valid_results asked.
Proof.
  intros Hid Hfail asked.
  assert (verify_one env r valid_results w = (Ok valid_results, asked)) as Hone.
  { rewrite verify_one_eq, (falsy_nonempty _ Hid). cbv zeta. subst asked.
    destruct (check_output env (trace w) _) as [out| |] eqn:Hout;
      [exfalso; exact (Hfail out eq_refl)|reflexivity|reflexivity]. }
  split; [exact Hone|]. split; [reflexivity|]. split.
  - intros job. subst asked. simpl. rewrite cancel_commands_snoc. simpl. lia.
  - rewrite verify_loop_cons, Hone. reflexivity.
Qed.

Section Monitor.

Variable env : Env.

Lemma parse_name_ip (output : string) (rv : result) :
  ip (parse_name output rv) = ip rv ∧ job_id (parse_name output rv) = job_id rv.
Proof.
  unfold parse_name. destruct (PyStr.contains provision_marker output);
    [|split; reflexivity].
  destruct (PyStr.neg_index _ 2); split; reflexivity.
Qed.

Lemma parse_name_other (output : string) (rv : result) :
  PyStr.contains provision_marker output = false → parse_name output rv = rv.
Proof. unfold parse_name. intros ->. reflexivity. Qed.

(** A line that carries a marker is not empty. *)
Lemma contains_nonempty (marker output : string) :
  marker ≠ ""%string → PyStr.contains marker output = true →
  PyStr.falsy output = false.
Proof.
  intros Hm. destruct output; [|reflexivity].
  destruct marker; [contradiction|]. simpl. discriminate.
Qed.

(** Without a connect line that was read and written, the loop leaves the
    endpoint as it found it. *)
Lemma read_loop_keeps_ip (events : list poll_event) (rv : result)
      (file : list string) :
  (∀ raw, In (Out raw) events → no_connect raw) →
  ip (read_loop events rv file).1.1 = ip rv
  ∧ job_id (read_loop events rv file).1.1 = job_id rv.
Proof.
  revert rv file. induction events as [|e rest IH]; intros rv file Hquiet;
    [split; reflexivity|].
  assert (∀ raw, In (Out raw) rest → no_connect raw) as Hrest.
  { intros raw Hin. apply Hquiet. right. exact Hin. }
  destruct e as [raw|raw|]; simpl.
  - destruct (PyStr.falsy (PyStr.strip raw)); [apply IH; exact Hrest|].
    rewrite (Hquiet raw (or_introl eq_refl)).
    destruct (IH (parse_name (PyStr.strip raw) rv)
                 (file ++ [String.append (PyStr.strip raw) linesep]) Hrest)
      as [-> ->].
    apply parse_name_ip.
  - destruct (PyStr.falsy (PyStr.strip raw)); [apply IH; exact Hrest|].
    simpl. apply parse_name_ip.
  - split; reflexivity.
Qed.

(** Lines without a connect phrase are read through; they leave the
    endpoint alone, and the name too when none of them starts a phase. *)
Lemma read_loop_through (pre : list string) (rest : list poll_event)
      (rv : result) (file : list string) :
  Forall no_connect pre →
  ∃ rv' file',
    read_loop (map Out pre ++ rest) rv file = read_loop rest rv' file'
    ∧ ip rv' = ip rv ∧ job_id rv' = job_id rv
    ∧ (Forall no_phase_start pre → rv' = rv).
Proof.
  intros Hpre. revert rv file.
  induction Hpre as [|raw pre Hraw Hpre IH]; intros rv file.
  { exists rv, file. repeat split; reflexivity. }
  simpl. destruct (PyStr.falsy (PyStr.strip raw)).
  { destruct (IH rv file) as (rv' & file' & Heq & Hip & Hjob & Hname).
    exists rv', file'. repeat split; try assumption.
    intros Hall. apply Hname. inversion Hall; assumption. }
  rewrite Hraw.
  destruct (IH (parse_name (PyStr.strip raw) rv)
               (file ++ [String.append (PyStr.strip raw) linesep]))
    as (rv' & file' & Heq & Hip & Hjob & Hname).
  exists rv', file'. split; [exact Heq|].
  destruct (parse_name_ip (PyStr.strip raw) rv) as [Hip0 Hjob0].
  split; [congruence|]. split; [congruence|].
  intros Hall. inversion Hall as [|? ? Hnp Hall']; subst.
  rewrite Hname by assumption. apply parse_name_other. exact Hnp.
Qed.

Lemma safeCancel_result_queue (job : string) (w : world) :
  result_queue (safeCancel env job w).2 = result_queue w.
Proof.
  unfold safeCancel. destruct (bool_decide _); [reflexivity|].
  destruct (isRunning env job w); simpl; [|reflexivity].
  destruct (cancelOutcome env job _); reflexivity.
Qed.

(** What a monitor gives back and puts on the queue. *)
Lemma monitor_subjob_eq (subjob : string) (open_raises : bool)
      (events : list poll_event) (is_cancelled : bool) (w : world) :
  let rv := if open_raises then Result "" subjob ""
            else (read_loop events (Result "" subjob "") []).1.1 in
  (monitor_subjob env subjob open_raises events is_cancelled w).1 = Ok rv
  ∧ result_queue (monitor_subjob env subjob open_raises events is_cancelled w).2
    = result_queue w ++ [rv].
Proof.
  intros rv. unfold monitor_subjob, bind, get, modify. simpl. fold rv.
  destruct (is_cancelled && negb (bool_decide (subjob ∈ cancelled_jobs w)));
    simpl; [|split; reflexivity].
  rewrite safe_cancel_job_eq. simpl. split; [reflexivity|].
  rewrite safeCancel_result_queue. reflexivity.
Qed.

End Monitor.

(** C4.  When the stream of a monitored job has a line that starts the
    provision phase on [agent] and later a connect line for [address], with
    no connect line before that one and no other phase start between the
    two, the record of the monitor is [{ip: address, job_id: subjob,
    name: agent}] and the loop stops at the connect line: what follows it
    is left unread. *)
Theorem monitor_subjob_round_trip (env : Env) (subjob agent address : string)
        (pre mid : list string) (phase connect : string)
        (post : list poll_event) (is_cancelled : bool) (w : world) :
  Forall no_connect pre →
  phase_start_line phase agent →
  Forall no_connect mid → Forall no_phase_start mid →
  connect_line connect address →
  let events := (map Out pre ++ Out phase :: map Out mid ++ Out connect :: post) in
  let record := Result address subjob agent in
  (∃ file, read_loop events (Result "" subjob "") [] = (record, file, post))
  ∧ fst (monitor_subjob env subjob false events is_cancelled w) = Ok record
  ∧ result_queue (snd (monitor_subjob env subjob false events is_cancelled w))
    = result_queue w ++ [record].
Proof.
  intros Hpre (Hp1 & Hp2 & Hp3) Hmid Hmid' (Hc1 & Hc2 & Hc3) events record.
  assert (∃ file, read_loop events (Result "" subjob "") [] = (record, file, post))
    as [file Hloop].
  { subst events.
    destruct (read_loop_through pre (Out phase :: map Out mid ++ Out connect :: post)
                (Result "" subjob "") [] Hpre)
      as (rv1 & file1 & -> & Hip1 & Hjob1 & _).
    simpl read_loop at 1.
    rewrite (contains_nonempty provision_marker _ ltac:(discriminate) Hp1), Hp3.
    destruct (read_loop_through mid (Out connect :: post)
                (parse_name (PyStr.strip phase) rv1)
                (file1 ++ [String.append (PyStr.strip phase) linesep]) Hmid)
      as (rv2 & file2 & -> & _ & _ & Hsame).
    rewrite (Hsame Hmid'). simpl read_loop.
    rewrite (contains_nonempty connect_marker _ ltac:(discriminate) Hc1), Hc1, Hc2.
    rewrite (parse_name_other _ _ Hc3).
    unfold parse_name. rewrite Hp1, Hp2.
    eexists. destruct rv1 as [i j n]. simpl in *. subst. reflexivity. }
  split; [exists file; exact Hloop|].
  destruct (monitor_subjob_eq env subjob false events is_cancelled w) as [H1 H2].
  cbv zeta in H1, H2. rewrite Hloop in H1, H2. split; assumption.
Qed.

(** C7.  When no connect line is read and written, whatever else the stream
    holds and however it ends, the record of the monitor has an empty
    endpoint, and handling that record in the loop of the orchestrator
    leaves the tally as it was. *)
Theorem monitor_subjob_without_connect (env : Env) (subjob : string)
        (open_raises : bool) (events : list poll_event) (is_cancelled : bool)
        (w : world) :
  (∀ raw, In (Out raw) events → no_connect raw) →
  ∃ record,
    fst (monitor_subjob env subjob open_raises events is_cancelled w) = Ok record
    ∧ result_queue (snd (monitor_subjob env subjob open_raises events is_cancelled w))
      = result_queue w ++ [record]
    ∧ ip record = ""%string
    ∧ job_id record = subjob
    ∧ ∀ completion_threshold p,
        completed_count (on_completion completion_threshold subjob record p)
        = completed_count p.
Proof.
  intros Hquiet.
  destruct (monitor_subjob_eq env subjob open_raises events is_cancelled w)
    as [H1 H2]. cbv zeta in H1, H2.
  eexists. split; [exact H1|]. split; [exact H2|].
  assert (ip (if open_raises then Result "" subjob ""
              else (read_loop events (Result "" subjob "") []).1.1) = ""%string
          ∧ job_id (if open_raises then Result "" subjob ""
              else (read_loop events (Result "" subjob "") []).1.1) = subjob)
    as [Hip Hjob].
  { destruct open_raises; [split; reflexivity|].
    apply (read_loop_keeps_ip events (Result "" subjob "") [] Hquiet). }
  split; [exact Hip|]. split; [exact Hjob|].
  intros completion_threshold p. unfold on_completion. rewrite Hip. simpl.
  destruct (completion_threshold <=? completed_count p)%Z; reflexivity.
Qed.

Section Selector.

Variable env : Env.

Lemma insert_by_streak_perm (a : agent) (l : list agent) :
  Permutation (a :: l) (insert_by_streak a l).
Proof.
  induction l as [|b l IH]; simpl; [reflexivity|].
  destruct (streak b <=? streak a)%Z; [reflexivity|].
  rewrite perm_swap. apply perm_skip. exact IH.
Qed.

Lemma sorted_by_streak_perm (l : list agent) :
  Permutation l (sorted_by_streak l).
Proof.
  induction l as [|a l IH]; simpl; [reflexivity|].
  rewrite <- insert_by_streak_perm. apply perm_skip. exact IH.
Qed.

Lemma insert_by_streak_sorted (a : agent) (l : list agent) :
  StronglySorted streak_ge l → StronglySorted streak_ge (insert_by_streak a l).
Proof.
  induction 1 as [|b l Hsorted IH Hall]; simpl.
  { constructor; constructor. }
  destruct (Z.leb_spec (streak b) (streak a)) as [Hle|Hlt].
  - constructor; [constructor; assumption|].
    constructor; [exact Hle|].
    eapply Forall_impl; [exact Hall|]. unfold streak_ge. simpl. intros c Hc. lia.
  - constructor; [exact IH|].
    eapply Permutation_Forall; [apply insert_by_streak_perm|].
    constructor; [unfold streak_ge; lia|exact Hall].
Qed.

Lemma sorted_by_streak_sorted (l : list agent) :
  StronglySorted streak_ge (sorted_by_streak l).
Proof.
  induction l as [|a l IH]; simpl; [constructor|].
  apply insert_by_streak_sorted. exact IH.
Qed.

Lemma Forall_filter_keeps {A : Type} (P : A → Prop) (f : A → bool) (l : list A) :
  Forall P l → Forall P (List.filter f l).
Proof.
  induction 1 as [|x l Hx Hall IH]; simpl; [constructor|].
  destruct (f x); [constructor; assumption|assumption].
Qed.

Lemma filter_sorted (f : agent → bool) (l : list agent) :
  StronglySorted streak_ge l → StronglySorted streak_ge (List.filter f l).
Proof.
  induction 1 as [|a l Hsorted IH Hall]; simpl; [constructor|].
  destruct (f a); [|exact IH].
  constructor; [exact IH|]. apply Forall_filter_keeps. exact Hall.
Qed.

Lemma filter_all {A : Type} (f : A → bool) (l : list A) :
  Forall (fun x => f x = true) (List.filter f l).
Proof.
  induction l as [|x l IH]; simpl; [constructor|].
  destruct (f x) eqn:Hx; [constructor; assumption|assumption].
Qed.

(** Splitting by the sign of the streak loses and repeats nothing. *)
Lemma split_by_sign_perm (l : list agent) :
  Permutation l (List.filter (fun a => (0 <? streak a)%Z) l
                 ++ List.filter (fun a => (streak a <=? 0)%Z) l).
Proof.
  induction l as [|a l IH]; simpl; [reflexivity|].
  destruct (Z.ltb_spec 0 (streak a)) as [Hpos|Hneg].
  - rewrite (proj2 (Z.leb_gt _ _)) by lia. simpl. apply perm_skip. exact IH.
  - rewrite (proj2 (Z.leb_le _ _)) by lia.
    rewrite <- Permutation_middle. apply perm_skip. exact IH.
Qed.

Lemma delete_insert_same {A : Type} (l : list A) (i : nat) (a : A) :
  delete i (<[i := a]> l) = delete i l.
Proof.
  revert i. induction l as [|b l IH]; intros [|i]; simpl; try reflexivity.
  f_equal. apply IH.
Qed.

Lemma insert_perm {A : Type} (l : list A) (i : nat) (a b : A) :
  l !! i = Some b → Permutation (<[i := a]> l) (a :: delete i l).
Proof.
  intros Hb.
  rewrite <- (delete_insert_same l i a).
  apply delete_Permutation. apply list_lookup_insert_eq.
  eapply lookup_lt_Some. exact Hb.
Qed.

Lemma swap_perm {A : Type} (x : list A) (i j : nat) :
  Permutation x (swap x i j).
Proof.
  unfold swap.
  destruct (x !! i) as [xi|] eqn:Hi; [|reflexivity].
  destruct (x !! j) as [xj|] eqn:Hj; [|reflexivity].
  destruct (decide (i = j)) as [->|Hne].
  { assert (xi = xj) as -> by congruence.
    rewrite (list_insert_id x j xj Hj), (list_insert_id x j xj Hj). reflexivity. }
  assert ((<[i := xj]> x) !! j = Some xj) as Hj'.
  { rewrite list_lookup_insert_ne by exact Hne. exact Hj. }
  rewrite (insert_perm _ j xi xj Hj').
  assert (Permutation (xj :: delete j (<[i := xj]> x)) (xj :: delete i x)) as Hmid.
  { rewrite <- (delete_Permutation _ j xj Hj').
    apply (insert_perm x i xj xi Hi). }
  apply Permutation_cons_inv in Hmid. rewrite Hmid.
  apply (delete_Permutation x i xi Hi).
Qed.

Lemma shuffle_from_perm {A : Type} (i k : nat) (x : list A) :
  Permutation x (shuffle_from env i k x).
Proof.
  revert k x. induction i as [|i IH]; intros k x; simpl; [reflexivity|].
  rewrite <- IH. apply swap_perm.
Qed.

Lemma shuffle_perm {A : Type} (x : list A) : Permutation x (shuffle env x).
Proof. apply shuffle_from_perm. Qed.

Lemma rank_agents_perm (agents : list agent) :
  Permutation agents (rank_agents env agents).
Proof.
  unfold rank_agents.
  rewrite <- shuffle_perm, <- split_by_sign_perm. apply sorted_by_streak_perm.
Qed.

(** The selector reads the inventory and changes nothing. *)
Lemma get_available_agents_eq (servers : list string) (w : world) :
  get_available_agents env servers w =
    (match inventory env with
     | None => Ok []
     | Some data =>
         match collect_agents servers data [] with
         | Ok agents => Ok (map agent_name (rank_agents env agents))
         | Raise e => Raise e
         end
     end, w).
Proof.
  unfold get_available_agents, get_agent_data, try_except, bind.
  destruct (inventory env) as [data|]; simpl; [|reflexivity].
  destruct (collect_agents servers data []); reflexivity.
Qed.

End Selector.

(** C6.  The ranking neither loses nor repeats an agent: it is a
    permutation of the waiting agents it was given, and so are the names it
    returns.  It is a block of agents with a positive streak followed by a
    block of agents with a streak of zero or less, and within the second
    block the streaks go down. *)
Theorem rank_agents_ranks (env : Env) (agents : list agent) :
  Permutation agents (rank_agents env agents)
  ∧ Permutation (map agent_name agents) (map agent_name (rank_agents env agents))
  ∧ ∃ positive non_positive,
      rank_agents env agents = positive ++ non_positive
      ∧ Forall (fun a => (0 < streak a)%Z) positive
      ∧ Forall (fun a => (streak a <= 0)%Z) non_positive
      ∧ StronglySorted streak_ge non_positive.
Proof.
  split; [apply rank_agents_perm|].
  split; [apply Permutation_map, rank_agents_perm|].
  unfold rank_agents. eexists _, _. split; [reflexivity|].
  split; [|split].
  - eapply Permutation_Forall; [apply shuffle_perm|].
    eapply Forall_impl; [apply filter_all|]. simpl. intros a Ha. lia.
  - eapply Forall_impl; [apply filter_all|]. simpl. intros a Ha. lia.
  - apply filter_sorted, sorted_by_streak_sorted.
Qed.

(** C8, as the code has it.  The signed streak of an inventory entry is
    its streak count negated when the streak type is ["fail"]; its streak
    count as it is for every other streak type, a passing one as well as
    one the code does not know or one that is absent; and 0 when the entry
    has no streak count. *)
Theorem signed_streak_cases (n s : option string) (q : option (list string))
        (count : Z) (streak_type : string) (t : option string) :
  signed_streak (Inventory.Entry n s q (Some count) (Some "pass"%string)) = count
  ∧ signed_streak (Inventory.Entry n s q (Some count) (Some "fail"%string))
    = (- count)%Z
  ∧ signed_streak (Inventory.Entry n s q None t) = 0%Z
  ∧ signed_streak (Inventory.Entry n s q (Some count) (Some streak_type))
    = (if String.eqb streak_type "fail" then - count else count)%Z
  ∧ signed_streak (Inventory.Entry n s q (Some count) None) = count.
Proof. repeat split; reflexivity. Qed.

(** C8, against the claim: an entry that has a streak count but no streak
    type, or a streak type that is neither the passing nor the failing one,
    keeps its count; the claim gives such an entry the streak 0. *)
Lemma signed_streak_of_count_without_type :
  signed_streak (Inventory.Entry (Some "a1"%string) (Some "waiting"%string)
                                 (Some ["pool"%string]) (Some 5%Z) None) = 5%Z
  ∧ signed_streak (Inventory.Entry (Some "a1"%string) (Some "waiting"%string)
                                   (Some ["pool"%string]) (Some 5%Z)
                                   (Some "unknown"%string)) = 5%Z
  ∧ 5%Z ≠ 0%Z.
Proof. split; [reflexivity|]. split; [reflexivity|discriminate]. Qed.

(** C9.  When the selector ranks fewer agents than the agent limit, be it
    one or more, [run] returns 1 and leaves the world as it found it: no
    file removed, none written, no command run. *)
Theorem run_fails_below_agent_limit (env : Env)
        (agent_limit completion_threshold : Z) (servers ranked : list string)
        (w : world) :
  servers_file env = Some servers →
  fst (get_available_agents env servers w) = Ok ranked →
  (Z.of_nat (length ranked) < agent_limit)%Z →
  run env agent_limit completion_threshold w = (Ok 1%Z, w).
Proof.
  intros Hservers Hranked Hfew.
  unfold run, try_except, bind at 1, read_servers_file. rewrite Hservers.
  unfold ret at 1. unfold bind at 1.
  rewrite get_available_agents_eq in Hranked |- *. simpl in Hranked.
  rewrite Hranked.
  assert (PyStr.slice_to ranked agent_limit = ranked) as ->.
  { unfold PyStr.slice_to. rewrite (proj2 (Z.leb_le 0 agent_limit)) by lia.
    apply take_ge. lia. }
  rewrite (proj2 (Z.ltb_lt _ _) Hfew). reflexivity.
Qed.

Section Orchestrator.

(** The sweep sets every token but the one of the job that completed. *)
Lemma cancel_remaining_lookup (subjob job : string) (tokens : gmap string bool) :
  cancel_remaining subjob tokens !! job =
    match tokens !! job with
    | Some token => Some (if String.eqb job subjob then token else true)
    | None => None
    end.
Proof.
  unfold cancel_remaining. rewrite map_lookup_imap.
  destruct (tokens !! job) as [token|]; simpl; [|reflexivity].
  destruct (String.eqb job subjob); simpl; [reflexivity|].
  destruct token; reflexivity.
Qed.

(** When a completion brings the tally to the threshold, the token of every
    other job is set, whether that job is still running or not. *)
Lemma on_completion_sweep (completion_threshold : Z) (subjob : string)
      (r : result) (p : pool) (job : string) (token : bool) :
  left_loop (on_completion completion_threshold subjob r p) = true →
  cancellation_tokens p !! job = Some token →
  job ≠ subjob →
  cancellation_tokens (on_completion completion_threshold subjob r p) !! job
  = Some true.
Proof.
  unfold on_completion. intros Hleft Htoken Hne.
  destruct (completion_threshold <=? _)%Z; simpl in *; [|discriminate].
  rewrite cancel_remaining_lookup, Htoken.
  rewrite (proj2 (String.eqb_neq job subjob) Hne). reflexivity.
Qed.

End Orchestrator.

(** C2, on three jobs with a threshold of two.  [a] completes with an
    endpoint and is handled, then [b] does and brings the tally to two.
    The sweep sets the token of [c], which is still running, and also the
    token of [a], which had completed with an endpoint before. *)
Theorem monitor_subjobs_signals_finished_job :
  ∃ p w,
    steps (reserved_env race_schedule) 2 race_schedule (new_pool race_jobs)
          empty_world = (Ok p, w)
    ∧ result_queue w = [Result "10.0.0.1" "a" ""; Result "10.0.0.2" "b" ""]
    ∧ completed_futures p = ["a"; "b"]%string
    ∧ completed_count p = 2%Z
    ∧ left_loop p = true
    ∧ cancellation_tokens p !! "c"%string = Some true
    ∧ cancellation_tokens p !! "b"%string = Some false
    ∧ cancellation_tokens p !! "a"%string = Some true.
Proof.
  eexists _, _. split; [vm_compute; reflexivity|].
  repeat split; vm_compute; reflexivity.
Qed.


(** A whole run with two jobs and a threshold of one: the first job gets its
    endpoint, the second is cancelled by its watcher.  The run succeeds, and
    its verification pass queries the status of both jobs, the cancelled one
    with its empty endpoint included, before it prints the first. *)
Lemma run_checks_every_queued_record :
  ∃ w, run overprovision_env 2 1 empty_world = (Ok 0%Z, w)
       ∧ trace w =
           [ WriteYaml job1; WriteYaml job2;
             Exec (cli ["submit"%string; job1]);
             Exec (cli ["submit"%string; job2]);
             WriteCancelScript [job1; job2];
             status_of job2; cancel_of job2;
             status_of job1; status_of job2;
             Print [Result "10.0.0.1" job1 ""] "10.0.0.1" ].
Proof. eexists. split; vm_compute; reflexivity. Qed.

(** ** The theorems at work on concrete runs *)

(** C1 on the calls [j], [k], [j] from a world that has [j] in the set. *)
Lemma safe_cancel_job_at_most_once_witness :
  "j"%string ∈ cancelled_jobs (add_cancelled "j" empty_world)
  ∧ List.filter (returned_true "j")
      (safe_cancel_calls (reserved_env []) ["j"; "k"; "j"]%string
                         (add_cancelled "j" empty_world)).1 = []
  ∧ cancel_commands "j"
      (trace (safe_cancel_calls (reserved_env []) ["j"; "k"; "j"]%string
                                (add_cancelled "j" empty_world)).2)
    = cancel_commands "j" (trace (add_cancelled "j" empty_world)).
Proof.
  assert ("j"%string ∈ cancelled_jobs (add_cancelled "j" empty_world)) as Hin.
  { simpl. apply elem_of_union_l, elem_of_singleton. reflexivity. }
  split; [exact Hin|].
  exact (proj2 (safe_cancel_job_at_most_once (reserved_env []) "j"
                  ["j"; "k"; "j"]%string (add_cancelled "j" empty_world)) Hin).
Defined.

(** C4 on the lines of the client for agent [X] and address [10.0.0.5]. *)
Lemma monitor_subjob_round_trip_witness :
  Forall no_connect ["Waiting for the job to start"%string]
  ∧ phase_start_line (String.append (banner_line "X") linesep) "X"
  ∧ Forall no_connect ["Provisioning the device"%string]
  ∧ Forall no_phase_start ["Provisioning the device"%string]
  ∧ connect_line (String.append (ready_line "10.0.0.5") linesep) "10.0.0.5"
  ∧ fst (monitor_subjob (reserved_env []) "job1" false
           (map Out ["Waiting for the job to start"%string]
            ++ Out (String.append (banner_line "X") linesep)
            :: map Out ["Provisioning the device"%string]
            ++ Out (String.append (ready_line "10.0.0.5") linesep)
            :: [Out "Reservation will expire"; ReadRaises])
           false empty_world)
    = Ok (Result "10.0.0.5" "job1" "X").
Proof.
  assert (Forall no_connect ["Waiting for the job to start"%string]) as H1.
  { repeat constructor. }
  assert (phase_start_line (String.append (banner_line "X") linesep) "X") as H2.
  { repeat split; vm_compute; reflexivity. }
  assert (Forall no_connect ["Provisioning the device"%string]) as H3.
  { repeat constructor. }
  assert (Forall no_phase_start ["Provisioning the device"%string]) as H4.
  { repeat constructor. }
  assert (connect_line (String.append (ready_line "10.0.0.5") linesep) "10.0.0.5")
    as H5.
  { repeat split; vm_compute; reflexivity. }
  repeat (split; [assumption|]).
  exact (proj1 (proj2 (monitor_subjob_round_trip (reserved_env []) "job1" "X"
                         "10.0.0.5" _ _ _ _
                         [Out "Reservation will expire"; ReadRaises]
                         false empty_world H1 H2 H3 H4 H5))).
Defined.


(** C7 on a stream that breaks off after one line. *)
Lemma monitor_subjob_without_connect_witness :
  (∀ raw, In (Out raw) [Out "Waiting for the job to start"; ReadRaises]
          → no_connect raw)
  ∧ ∃ record,
      fst (monitor_subjob (reserved_env []) "job1" false
             [Out "Waiting for the job to start"; ReadRaises] false empty_world)
      = Ok record
      ∧ ip record = ""%string.
Proof.
  assert (∀ raw, In (Out raw) [Out "Waiting for the job to start"; ReadRaises]
                 → no_connect raw) as H.
  { intros raw [Heq|[Heq|[]]]; inversion Heq. reflexivity. }
  split; [exact H|].
  destruct (monitor_subjob_without_connect (reserved_env []) "job1" false
              [Out "Waiting for the job to start"; ReadRaises] false
              empty_world H) as (record & Hret & _ & Hip & _).
  exists record. split; assumption.
Defined.

(** C9 on two waiting agents and a limit of three. *)
Lemma run_fails_below_agent_limit_witness :
  servers_file (constant_env TimeoutExpired two_agents []) = Some ["pool"%string]
  ∧ fst (get_available_agents (constant_env TimeoutExpired two_agents [])
           ["pool"%string] empty_world) = Ok ["a1"; "a2"]%string
  ∧ (Z.of_nat (length ["a1"; "a2"]%string) < 3)%Z
  ∧ run (constant_env TimeoutExpired two_agents []) 3 2 empty_world
    = (Ok 1%Z, empty_world).
Proof.
  assert (fst (get_available_agents (constant_env TimeoutExpired two_agents [])
                 ["pool"%string] empty_world) = Ok ["a1"; "a2"]%string) as H2.
  { vm_compute. reflexivity. }
  assert (Z.of_nat (length ["a1"; "a2"]%string) < 3)%Z as H3.
  { simpl. lia. }
  split; [reflexivity|]. split; [exact H2|]. split; [exact H3|].
  exact (run_fails_below_agent_limit (constant_env TimeoutExpired two_agents [])
           3 2 ["pool"%string] ["a1"; "a2"]%string empty_world eq_refl H2 H3).
Defined.

(** C10 on a service whose every command fails. *)
Lemma verify_results_skips_on_query_failure_witness :
  job_id (Result "10.0.0.9" "j2" "X") ≠ ""%string
  ∧ (∀ out, check_output failing_env (trace empty_world)
              (cli ["status"%string; job_id (Result "10.0.0.9" "j2" "X")])
            ≠ Exited0 out)
  ∧ verify_one failing_env (Result "10.0.0.9" "j2" "X") [] empty_world
    = (Ok [], emit (status_of "j2") empty_world).
Proof.
  assert (job_id (Result "10.0.0.9" "j2" "X") ≠ ""%string) as H1.
  { simpl. discriminate. }
  assert (∀ out, check_output failing_env (trace empty_world)
                   (cli ["status"%string; job_id (Result "10.0.0.9" "j2" "X")])
                 ≠ Exited0 out) as H2.
  { intros out. simpl. discriminate. }
  split; [exact H1|]. split; [exact H2|].
  exact (proj1 (verify_results_skips_on_query_failure failing_env
                  (Result "10.0.0.9" "j2" "X") [] [] empty_world H1 H2)).
Defined.

(** ** Further properties: what a run does to the cancelled set and to the
    trace *)

Section Evolution.

Variable env : Env.

Lemma guarded_app (s t : list event) : guarded s → guarded t → guarded (s ++ t).
Proof.
  induction 1 as [|e s He Hs IH|job s Hs IH]; simpl; intros Ht; [assumption| |].
  - apply guarded_other; auto.
  - apply guarded_cancel; auto.
Qed.

Lemma evolves_refl (w : world) : evolves w w.
Proof.
  split; [reflexivity|]. exists []. split; [symmetry; apply app_nil_r|constructor].
Qed.

Lemma evolves_trans (w1 w2 w3 : world) :
  evolves w1 w2 → evolves w2 w3 → evolves w1 w3.
Proof.
  intros [Hc1 (t1 & Ht1 & Hg1)] [Hc2 (t2 & Ht2 & Hg2)]. split; [set_solver|].
  exists (t1 ++ t2). split; [|apply guarded_app; assumption].
  rewrite Ht2, Ht1, app_assoc. reflexivity.
Qed.

Lemma evolves_same (w w' : world) :
  cancelled_jobs w' = cancelled_jobs w → trace w' = trace w → evolves w w'.
Proof.
  intros Hc Ht. split; [rewrite Hc; reflexivity|].
  exists []. split; [rewrite Ht; symmetry; apply app_nil_r|constructor].
Qed.

Lemma evolves_emit (e : event) (w : world) :
  is_cancel e = false → evolves w (emit e w).
Proof.
  intros He. split; [reflexivity|]. exists [e]. split; [reflexivity|].
  constructor; [exact He|constructor].
Qed.

Lemma evolves_add_cancelled (job : string) (w : world) :
  evolves w (add_cancelled job w).
Proof.
  split; [simpl; set_solver|]. exists []. split; [symmetry; apply app_nil_r|constructor].
Qed.

Lemma steady_ret {A : Type} (a : A) : steady (ret a).
Proof. intros w. apply evolves_refl. Qed.

Lemma steady_raise {A : Type} (e : exn) : steady (@raise A e).
Proof. intros w. apply evolves_refl. Qed.

Lemma steady_get : steady get.
Proof. intros w. apply evolves_refl. Qed.

Lemma steady_modify (f : world → world) :
  (∀ w, evolves w (f w)) → steady (modify f).
Proof. intros Hf w. apply Hf. Qed.

Lemma steady_bind {A B : Type} (c : M A) (k : A → M B) :
  steady c → (∀ a, steady (k a)) → steady (bind c k).
Proof.
  intros Hc Hk w. unfold bind. specialize (Hc w).
  destruct (c w) as [[a|e] w']; simpl in *; [|exact Hc].
  eapply evolves_trans; [exact Hc|apply Hk].
Qed.

Lemma steady_dispatch {A : Type} (clauses : list (handler A)) (e : exn) :
  Forall (fun clause => ∀ e, steady (clause.2 e)) clauses →
  steady (dispatch clauses e).
Proof.
  induction 1 as [|[matches h] rest Hh Hrest IH]; simpl; [apply steady_raise|].
  destruct (matches e); [apply Hh|exact IH].
Qed.

Lemma steady_try_except {A : Type} (c : M A) (clauses : list (handler A)) :
  steady c → Forall (fun clause => ∀ e, steady (clause.2 e)) clauses →
  steady (try_except c clauses).
Proof.
  intros Hc Hh w. unfold try_except. specialize (Hc w).
  destruct (c w) as [[a|e] w']; simpl in *; [exact Hc|].
  eapply evolves_trans; [exact Hc|apply steady_dispatch; exact Hh].
Qed.

(** A command other than cancel. *)
Lemma steady_call_testflinger (command : list string) :
  is_cancel (Exec (cli command)) = false → steady (call_testflinger env command).
Proof.
  intros Hc w. rewrite call_testflinger_eq. simpl. apply evolves_emit. exact Hc.
Qed.

Lemma evolves_safeCancel (job : string) (w : world) :
  evolves w (safeCancel env job w).2.
Proof.
  unfold safeCancel.
  destruct (bool_decide (job ∈ cancelled_jobs w)); simpl; [apply evolves_refl|].
  destruct (isRunning env job w); simpl.
  - assert (evolves w (emit (cancel_of job) (emit (status_of job) w))) as Htried.
    { split; [reflexivity|]. exists [status_of job; cancel_of job].
      split; [simpl; rewrite <- app_assoc; reflexivity|].
      apply guarded_cancel. constructor. }
    destruct (cancelOutcome env job _); simpl; try exact Htried;
      (eapply evolves_trans; [exact Htried|apply evolves_add_cancelled]).
  - eapply evolves_trans; [apply (evolves_emit (status_of job)); reflexivity|].
    apply evolves_add_cancelled.
Qed.

Lemma steady_safe_cancel_job (job : string) : steady (safe_cancel_job env job).
Proof. intros w. rewrite safe_cancel_job_eq. apply evolves_safeCancel. Qed.

End Evolution.

Ltac steady :=
  repeat match goal with
    | |- steady (ret _) => apply steady_ret
    | |- steady (raise _) => apply steady_raise
    | |- steady get => apply steady_get
    | |- steady (safe_cancel_job _ _) => apply steady_safe_cancel_job
    | |- steady (call_testflinger _ _) =>
        apply steady_call_testflinger; reflexivity
    | |- steady (bind _ _) => apply steady_bind; [|intros ?]
    | |- steady (try_except _ _) => apply steady_try_except
    | |- steady (modify _) => apply steady_modify; intros ?
    | |- Forall _ (_ :: _) => constructor; [simpl; intros ?|]
    | |- Forall _ [] => constructor
    | |- evolves _ (add_cancelled _ _) => apply evolves_add_cancelled
    | |- evolves _ (emit _ _) => apply evolves_emit; reflexivity
    | |- evolves _ _ => apply evolves_same; reflexivity
    | |- steady (let _ := _ in _) => cbv zeta
    | |- steady (if ?b then _ else _) => destruct b
    | |- steady (match ?x with _ => _ end) => destruct x
    end.

Section EvolutionOfRun.

Variable env : Env.

Lemma steady_verify_loop (results valid_results : list result) :
  steady (verify_loop env results valid_results).
Proof.
  revert valid_results. induction results as [|r rest IH]; intros valid_results;
    simpl; [steady|].
  apply steady_bind; [unfold verify_one; steady|]. intros v. apply IH.
Qed.

Lemma steady_get_available_agents (servers : list string) :
  steady (get_available_agents env servers).
Proof. intros w. rewrite get_available_agents_eq. apply evolves_refl. Qed.

Lemma steady_delete_each (names : list string) : steady (delete_each env names).
Proof.
  induction names as [|f rest IH]; simpl; [steady|].
  steady. exact IH.
Qed.

Lemma evolves_create_file (f : string) (w : world) : evolves w (create_file f w).
Proof.
  unfold create_file. destruct (bool_decide _); [apply evolves_refl|].
  apply evolves_same; reflexivity.
Qed.

Lemma steady_generate_yaml_files (agents : list string) :
  steady (generate_yaml_files env agents).
Proof.
  induction agents as [|a rest IH]; simpl; [steady|].
  steady; try apply evolves_create_file. exact IH.
Qed.

Lemma steady_submit_each (files job_ids : list string) :
  steady (submit_each env files job_ids).
Proof.
  revert job_ids. induction files as [|f rest IH]; intros job_ids; simpl;
    [steady|].
  steady. apply IH.
Qed.

Lemma steady_monitor_subjob (subjob : string) (open_raises : bool)
      (events : list poll_event) (is_cancelled : bool) :
  steady (monitor_subjob env subjob open_raises events is_cancelled).
Proof. unfold monitor_subjob. steady. Qed.

Lemma steady_step (completion_threshold : Z) (a : action) (p : pool) :
  steady (step env completion_threshold a p).
Proof.
  destruct a as [job open_raises events|job|job]; simpl.
  - destruct (cancellation_tokens p !! job) as [token|]; [|steady].
    destruct (done_futures p !! job); [steady|].
    apply steady_bind; [apply steady_monitor_subjob|]. intros r. steady.
  - steady.
  - steady.
Qed.

Lemma steady_steps (completion_threshold : Z) (actions : list action) (p : pool) :
  steady (steps env completion_threshold actions p).
Proof.
  revert p. induction actions as [|a rest IH]; intros p; simpl; [steady|].
  apply steady_bind; [apply steady_step|]. intros p'. apply IH.
Qed.

Lemma steady_cancel_all (jobs : list string) : steady (cancel_all env jobs).
Proof.
  induction jobs as [|job rest IH]; simpl; [steady|].
  steady. exact IH.
Qed.

Lemma steady_run (agent_limit completion_threshold : Z) :
  steady (run env agent_limit completion_threshold).
Proof.
  unfold run. apply steady_try_except; [|steady].
  apply steady_bind; [unfold read_servers_file; steady|]. intros servers.
  apply steady_bind; [apply steady_get_available_agents|]. intros ranked.
  destruct (_ <? _)%Z; [steady|].
  apply steady_bind;
    [unfold delete_yaml_files; steady; apply steady_delete_each|]. intros _.
  apply steady_bind; [apply steady_generate_yaml_files|]. intros _.
  apply steady_bind.
  { unfold submit_jobs, get_yaml_files. steady. apply steady_submit_each. }
  intros submitted. apply steady_bind; [steady|]. intros _.
  destruct submitted as [|job rest]; [steady|].
  apply steady_bind; [unfold create_cancel_script; steady|]. intros _.
  apply steady_bind.
  { unfold monitor_subjobs. apply steady_bind; [apply steady_steps|].
    intros p. steady. }
  intros completion_count. destruct (_ <? _)%Z.
  - apply steady_bind; [apply steady_cancel_all|]. intros _. steady.
  - apply steady_bind; [unfold drain_queue; steady|]. intros results.
    apply steady_bind; [apply steady_verify_loop|]. intros valid_results.
    steady.
Qed.

Lemma guarded_before_cancel (pre post : list event) (job : string) :
  guarded (pre ++ cancel_of job :: post) →
  ∃ pre', pre = pre' ++ [status_of job].
Proof.
  remember (pre ++ cancel_of job :: post) as t eqn:Ht. intros Hg.
  revert pre Ht. induction Hg as [|e t He Hg IH|j t Hg IH]; intros pre Ht.
  - destruct pre; discriminate.
  - destruct pre as [|e' pre]; simpl in Ht.
    + injection Ht as -> _. discriminate.
    + injection Ht as -> Ht. destruct (IH pre Ht) as [pre' ->].
      exists (e' :: pre'). reflexivity.
  - destruct pre as [|e1 pre]; simpl in Ht; [discriminate|].
    injection Ht as <- Ht. destruct pre as [|e2 pre]; simpl in Ht.
    + injection Ht as Hj _. exists []. simpl. congruence.
    + injection Ht as <- Ht. destruct (IH pre Ht) as [pre' ->].
      exists (status_of j :: cancel_of j :: pre'). reflexivity.
Qed.

End EvolutionOfRun.

(** X1.  A run never takes a job out of the cancelled set: whatever the
    outside world answers, every job that was in the set before [run] is in
    it afterwards. *)
Theorem run_keeps_cancelled_jobs (env : Env) (agent_limit completion_threshold : Z)
        (w : world) :
  cancelled_jobs w ⊆ cancelled_jobs (snd (run env agent_limit completion_threshold w)).
Proof. apply (steady_run env agent_limit completion_threshold w). Qed.

(** X2.  A run cancels a job only right after it has asked for its status:
    wherever a cancel command stands in the part of the trace that [run]
    adds, the event before it is the status query for the same job. *)
Theorem run_asks_status_before_cancel (env : Env)
        (agent_limit completion_threshold : Z) (w : world)
        (pre post : list event) (job : string) :
  trace (snd (run env agent_limit completion_threshold w))
  = trace w ++ pre ++ cancel_of job :: post →
  ∃ pre', pre = pre' ++ [status_of job].
Proof.
  intros Htrace.
  destruct (steady_run env agent_limit completion_threshold w)
    as [_ (t & Ht & Hg)].
  rewrite Ht in Htrace. apply app_inv_head in Htrace. subst t.
  eapply guarded_before_cancel. exact Hg.
Qed.

(** ** Further properties: the monitor *)

Section Lines.

Lemma split_nonempty (sep : ascii) (s : string) :
  (1 <= length (PyStr.split sep s))%nat.
Proof.
  induction s as [|c t IH]; simpl; [lia|].
  destruct (Ascii.eqb c sep); simpl; [lia|].
  destruct (PyStr.split sep t); simpl in *; lia.
Qed.

Lemma prefix_one_char (sep c : ascii) (t : string) :
  String.prefix (one_char sep) (String c t) = Ascii.eqb c sep.
Proof.
  unfold one_char. simpl. destruct (ascii_dec sep c) as [->|Hne].
  - rewrite Ascii.eqb_refl. destruct t; reflexivity.
  - symmetry. apply Ascii.eqb_neq. congruence.
Qed.

(** A string with a separator in it splits into two fields at least. *)
Lemma split_two_fields (sep : ascii) (s : string) :
  PyStr.contains (one_char sep) s = true →
  (2 <= length (PyStr.split sep s))%nat.
Proof.
  induction s as [|c t IH]; [discriminate|].
  cbn [PyStr.contains PyStr.split]. rewrite prefix_one_char.
  destruct (Ascii.eqb c sep); simpl.
  - intros _. pose proof (split_nonempty sep t). lia.
  - intros Ht. specialize (IH Ht). destruct (PyStr.split sep t); simpl in *; lia.
Qed.

(** No field of a split has the separator in it. *)
Lemma split_fields_clean (sep : ascii) (s : string) :
  Forall (fun field => PyStr.contains (one_char sep) field = false)
         (PyStr.split sep s).
Proof.
  induction s as [|c t IH]; simpl; [repeat constructor|].
  destruct (Ascii.eqb c sep) eqn:Hc; [constructor; [reflexivity|exact IH]|].
  destruct (PyStr.split sep t) as [|w ws]; [repeat constructor|].
  - cbn [PyStr.contains]. rewrite prefix_one_char, Hc. reflexivity.
  - inversion IH as [|? ? Hw Hws]; subst. constructor; [|exact Hws].
    cbn [PyStr.contains]. rewrite prefix_one_char, Hc. exact Hw.
Qed.

Lemma neg_index_some {A : Type} (l : list A) (k : nat) :
  (1 <= k)%nat → (k <= length l)%nat → ∃ x, PyStr.neg_index l k = Some x ∧ x ∈ l.
Proof.
  intros Hk Hlen. unfold PyStr.neg_index.
  rewrite (proj2 (Nat.leb_le _ _) Hlen).
  destruct (lookup_lt_is_Some_2 l (length l - k)) as [x Hx]; [lia|].
  exists x. split; [exact Hx|]. eapply list_elem_of_lookup_2. exact Hx.
Qed.

Lemma neg_index_in {A : Type} (l : list A) (k : nat) (x : A) :
  PyStr.neg_index l k = Some x → x ∈ l.
Proof.
  unfold PyStr.neg_index. destruct (k <=? length l)%nat; [|discriminate].
  apply list_elem_of_lookup_2.
Qed.

Lemma contains_app_r (needle pre s : string) :
  PyStr.contains needle s = true →
  PyStr.contains needle (String.append pre s) = true.
Proof.
  intros Hs. induction pre as [|c pre IH]; simpl; [exact Hs|].
  rewrite IH. apply orb_true_r.
Qed.

Lemma prefix_split (p s : string) :
  String.prefix p s = true → ∃ post, s = String.append p post.
Proof.
  revert s. induction p as [|c p IH]; intros s; simpl.
  { intros _. exists s. reflexivity. }
  destruct s as [|d s]; simpl; [discriminate|].
  destruct (ascii_dec c d) as [->|]; [|discriminate].
  intros Hp. destruct (IH s Hp) as [post ->]. exists post. reflexivity.
Qed.

Lemma contains_split (needle hay : string) :
  PyStr.contains needle hay = true →
  ∃ pre post, hay = String.append pre (String.append needle post).
Proof.
  induction hay as [|c hay IH]; cbn [PyStr.contains]; intros Hc.
  - rewrite orb_false_r in Hc. destruct (prefix_split _ _ Hc) as [post Hpost].
    exists EmptyString, post. exact Hpost.
  - apply orb_true_iff in Hc as [Hp|Ht].
    + destruct (prefix_split _ _ Hp) as [post Hpost].
      exists EmptyString, post. exact Hpost.
    + destruct (IH Ht) as (pre & post & ->).
      exists (String c pre), post. reflexivity.
Qed.

(** A line with the phase phrase in it has a blank in it. *)
Lemma provision_marker_has_blank (output : string) :
  PyStr.contains provision_marker output = true →
  PyStr.contains (one_char " ") output = true.
Proof.
  intros Hc. destruct (contains_split _ _ Hc) as (pre & post & ->).
  apply contains_app_r. reflexivity.
Qed.

End Lines.

Section MonitorRecord.

Variable env : Env.

Lemma read_loop_job_id (events : list poll_event) (rv : result)
      (file : list string) :
  job_id (read_loop events rv file).1.1 = job_id rv.
Proof.
  revert rv file. induction events as [|e rest IH]; intros rv file; [reflexivity|].
  destruct e as [raw|raw|]; simpl; [| |reflexivity].
  - destruct (PyStr.falsy (PyStr.strip raw)); [apply IH|].
    destruct (PyStr.contains connect_marker (PyStr.strip raw)).
    + destruct (PyStr.neg_index _ 1); simpl.
      * apply parse_name_ip.
      * rewrite IH. apply parse_name_ip.
    + rewrite IH. apply parse_name_ip.
  - destruct (PyStr.falsy (PyStr.strip raw)); [apply IH|]. simpl.
    apply parse_name_ip.
Qed.

(** A record whose endpoint has no [@] and whose name has no blank. *)
Lemma parse_name_clean (output : string) (rv : result) :
  PyStr.contains (one_char " ") (name rv) = false →
  PyStr.contains (one_char " ") (name (parse_name output rv)) = false.
Proof.
  intros Hrv. unfold parse_name.
  destruct (PyStr.contains provision_marker output); [|exact Hrv].
  destruct (PyStr.neg_index _ 2) as [n|] eqn:Hn; [|exact Hrv]. simpl.
  apply neg_index_in in Hn.
  pose proof (split_fields_clean " " output) as Hclean.
  rewrite Forall_forall in Hclean. apply Hclean. exact Hn.
Qed.

Lemma read_loop_clean (events : list poll_event) (rv : result)
      (file : list string) :
  PyStr.contains (one_char "@") (ip rv) = false →
  PyStr.contains (one_char " ") (name rv) = false →
  PyStr.contains (one_char "@") (ip (read_loop events rv file).1.1) = false
  ∧ PyStr.contains (one_char " ") (name (read_loop events rv file).1.1) = false.
Proof.
  revert rv file. induction events as [|e rest IH]; intros rv file Hip Hname;
    [split; assumption|].
  assert (∀ output, ip (parse_name output rv) = ip rv) as Hkeep.
  { intros output. apply parse_name_ip. }
  destruct e as [raw|raw|]; simpl; [| |split; assumption].
  - destruct (PyStr.falsy (PyStr.strip raw)); [apply IH; assumption|].
    pose proof (parse_name_clean (PyStr.strip raw) rv Hname) as Hname'.
    destruct (PyStr.contains connect_marker (PyStr.strip raw));
      [|apply IH; [rewrite Hkeep|]; assumption].
    destruct (PyStr.neg_index _ 1) as [address|] eqn:Ha;
      [|apply IH; [rewrite Hkeep|]; assumption].
    simpl. split; [|exact Hname'].
    apply neg_index_in in Ha.
    pose proof (split_fields_clean "@" (PyStr.strip raw)) as Hclean.
    rewrite Forall_forall in Hclean. apply Hclean. exact Ha.
  - destruct (PyStr.falsy (PyStr.strip raw)); [apply IH; assumption|]. simpl.
    split; [rewrite Hkeep; exact Hip|apply parse_name_clean; exact Hname].
Qed.

End MonitorRecord.

(** X3.  A monitor that returns has given exactly one record: whatever the
    stream, the token and the answers of the service, the record that
    [monitor_subjob] returns carries the identifier of its job, and that
    one record is what the call has put at the end of the queue. *)
Theorem monitor_subjob_emits_one_record (env : Env) (subjob : string)
        (open_raises : bool) (events : list poll_event) (is_cancelled : bool)
        (w : world) (record : result) :
  fst (monitor_subjob env subjob open_raises events is_cancelled w) = Ok record →
  job_id record = subjob
  ∧ result_queue (snd (monitor_subjob env subjob open_raises events
                         is_cancelled w))
    = result_queue w ++ [record].
Proof.
  destruct (monitor_subjob_eq env subjob open_raises events is_cancelled w)
    as [Hret Hqueue]. cbv zeta in Hret, Hqueue.
  rewrite Hret. intros [= <-]. split; [|exact Hqueue].
  destruct open_raises; [reflexivity|]. apply read_loop_job_id.
Qed.

(** X4.  The two handlers for [IndexError] in the reading loop are never
    entered.  A line that has the phase phrase always has a last field but
    one, which becomes the name; and a line that has the connect phrase,
    once read and written, always ends the loop with what follows its last
    [@] as endpoint. *)
Theorem marked_lines_always_parse (raw : string) (rest : list poll_event)
        (rv : result) (file : list string) :
  (PyStr.contains provision_marker (PyStr.strip raw) = true →
   ∃ agent, PyStr.neg_index (PyStr.split " " (PyStr.strip raw)) 2 = Some agent
            ∧ parse_name (PyStr.strip raw) rv = set_name agent rv)
  ∧ (PyStr.contains connect_marker (PyStr.strip raw) = true →
     ∃ address,
       PyStr.neg_index (PyStr.split "@" (PyStr.strip raw)) 1 = Some address
       ∧ read_loop (Out raw :: rest) rv file
         = (set_ip address (parse_name (PyStr.strip raw) rv),
            file ++ [String.append (PyStr.strip raw) linesep], rest)).
Proof.
  split.
  - intros Hmark.
    destruct (neg_index_some (PyStr.split " " (PyStr.strip raw)) 2)
      as (agent & Hagent & _); [lia| |].
    { apply split_two_fields, provision_marker_has_blank. exact Hmark. }
    exists agent. split; [exact Hagent|].
    unfold parse_name. rewrite Hmark, Hagent. reflexivity.
  - intros Hmark.
    destruct (neg_index_some (PyStr.split "@" (PyStr.strip raw)) 1)
      as (address & Haddress & _); [lia|apply split_nonempty|].
    exists address. split; [exact Haddress|]. simpl.
    rewrite (contains_nonempty connect_marker _ ltac:(discriminate) Hmark).
    rewrite Hmark, Haddress. reflexivity.
Qed.

(** X5.  Whatever the stream holds, the endpoint of the record of a monitor
    has no [@] in it and its name has no blank in it. *)
Theorem monitor_subjob_fields_clean (env : Env) (subjob : string)
        (open_raises : bool) (events : list poll_event) (is_cancelled : bool)
        (w : world) :
  match fst (monitor_subjob env subjob open_raises events is_cancelled w) with
  | Ok record =>
      PyStr.contains (one_char "@") (ip record) = false
      ∧ PyStr.contains (one_char " ") (name record) = false
  | Raise _ => False
  end.
Proof.
  destruct (monitor_subjob_eq env subjob open_raises events is_cancelled w)
    as [Hret _]. cbv zeta in Hret. rewrite Hret.
  destruct open_raises; [split; reflexivity|].
  apply read_loop_clean; reflexivity.
Qed.

(** X6.  The capture file gets the lines that were read, and only those:
    the events split into the ones the loop went through and the ones it
    left unread, and the file has grown by the lines of the first part that
    are not blank and were written, stripped, each with a newline, in
    their order. *)
Theorem read_loop_captures_what_it_reads (events : list poll_event)
        (rv : result) (file : list string) :
  ∃ consumed,
    events = consumed ++ snd (read_loop events rv file)
    ∧ snd (fst (read_loop events rv file)) = file ++ omap captured_line consumed.
Proof.
  revert rv file. induction events as [|e rest IH]; intros rv file.
  { exists []. split; [reflexivity|]. simpl. symmetry. apply app_nil_r. }
  destruct e as [raw|raw|]; simpl read_loop.
  - destruct (PyStr.falsy (PyStr.strip raw)) eqn:Hblank.
    { destruct (IH rv file) as (consumed & Hsplit & Hfile).
      exists (Out raw :: consumed). split; [simpl; f_equal; exact Hsplit|].
      simpl. rewrite Hblank. exact Hfile. }
    assert (∃ consumed,
              Out raw :: rest
              = consumed
                ++ snd (read_loop rest (parse_name (PyStr.strip raw) rv)
                          (file ++ [String.append (PyStr.strip raw) linesep]))
              ∧ snd (fst (read_loop rest (parse_name (PyStr.strip raw) rv)
                            (file ++ [String.append (PyStr.strip raw) linesep])))
                = file ++ omap captured_line consumed) as Hon.
    { destruct (IH (parse_name (PyStr.strip raw) rv)
                   (file ++ [String.append (PyStr.strip raw) linesep]))
        as (consumed & Hsplit & Hfile).
      exists (Out raw :: consumed). split; [simpl; f_equal; exact Hsplit|].
      simpl. rewrite Hblank. simpl. rewrite Hfile, <- app_assoc. reflexivity. }
    destruct (PyStr.contains connect_marker (PyStr.strip raw)); [|exact Hon].
    destruct (PyStr.neg_index _ 1); [|exact Hon].
    exists [Out raw]. split; [reflexivity|]. simpl. rewrite Hblank. reflexivity.
  - destruct (PyStr.falsy (PyStr.strip raw)) eqn:Hblank.
    + destruct (IH rv file) as (consumed & Hsplit & Hfile).
      exists (OutWriteFails raw :: consumed).
      split; [simpl; f_equal; exact Hsplit|exact Hfile].
    + exists [OutWriteFails raw]. split; [reflexivity|].
      simpl. symmetry. apply app_nil_r.
  - exists [ReadRaises]. split; [reflexivity|]. simpl. symmetry. apply app_nil_r.
Qed.

(** ** Further properties: the agent selector *)

Section SelectorMore.

Variable env : Env.

Lemma collect_agents_ok (servers : list string) (data : list Inventory.entry)
      (agents : list agent) :
  Forall (fun entry => in_target_servers servers entry = true → has_keys entry)
         data →
  collect_agents servers data agents
  = Ok (agents ++ omap to_agent (List.filter (in_target_servers servers) data)).
Proof.
  intros Hkeys. revert agents.
  induction Hkeys as [|entry data Hentry Hdata IH]; intros agents; simpl.
  { rewrite app_nil_r. reflexivity. }
  destruct (in_target_servers servers entry) eqn:Htarget; simpl; [|apply IH].
  destruct (Hentry eq_refl) as [[n Hn] [s Hs]]. unfold to_agent.
  rewrite Hn, Hs. destruct (String.eqb s "waiting"); [|apply IH].
  rewrite IH, <- app_assoc. reflexivity.
Qed.

Lemma collect_agents_raises (servers : list string) (data : list Inventory.entry)
      (agents : list agent) (entry : Inventory.entry) :
  entry ∈ data → in_target_servers servers entry = true →
  Inventory.name entry = None ∨ Inventory.state entry = None →
  collect_agents servers data agents = Raise KeyError.
Proof.
  intros Hin Htarget Hmissing. revert agents.
  induction data as [|e data IH]; intros agents; [inversion Hin|].
  assert (∀ agents', collect_agents servers data agents' = Raise KeyError
                     ∨ e = entry) as Hrest.
  { intros agents'. apply elem_of_cons in Hin as [->|Hin]; [right; reflexivity|].
    left. apply IH. exact Hin. }
  simpl. destruct (in_target_servers servers e) eqn:He; simpl.
  - destruct (Inventory.name e) as [n|] eqn:Hn; [|reflexivity].
    destruct (Inventory.state e) as [s|] eqn:Hs; [|reflexivity].
    assert (e ≠ entry) as Hne.
    { intros ->. destruct Hmissing; congruence. }
    destruct (String.eqb s "waiting");
      match goal with
      | |- collect_agents _ _ ?a = _ => destruct (Hrest a); [assumption|contradiction]
      end.
  - destruct (Hrest agents) as [?| ->]; [assumption|congruence].
Qed.

Lemma collect_agents_never_other (servers : list string)
      (data : list Inventory.entry) (agents : list agent) (e : exn) :
  collect_agents servers data agents = Raise e →
  e = KeyError
  ∧ ∃ entry, entry ∈ data ∧ in_target_servers servers entry = true
             ∧ (Inventory.name entry = None ∨ Inventory.state entry = None).
Proof.
  revert agents. induction data as [|entry data IH]; intros agents; simpl;
    [discriminate|].
  assert (∀ agents', collect_agents servers data agents' = Raise e →
            e = KeyError
            ∧ ∃ entry0, entry0 ∈ entry :: data
                        ∧ in_target_servers servers entry0 = true
                        ∧ (Inventory.name entry0 = None
                           ∨ Inventory.state entry0 = None)) as Hrest.
  { intros agents' Hr. destruct (IH _ Hr) as [-> (entry0 & Hin & Ht & Hm)].
    split; [reflexivity|]. exists entry0. split; [right; exact Hin|auto]. }
  destruct (in_target_servers servers entry) eqn:Htarget; simpl; [|apply Hrest].
  destruct (Inventory.name entry) as [n|] eqn:Hn.
  2:{ intros [= <-]. split; [reflexivity|]. exists entry.
      split; [left|]; auto. }
  destruct (Inventory.state entry) as [s|] eqn:Hs.
  2:{ intros [= <-]. split; [reflexivity|]. exists entry.
      split; [left|]; auto. }
  destruct (String.eqb s "waiting"); apply Hrest.
Qed.

Lemma with_streak_insert (k : Z) (a : agent) (l : list agent) :
  List.filter (with_streak k) (insert_by_streak a l)
  = List.filter (with_streak k) (a :: l).
Proof.
  induction l as [|b l IH]; [reflexivity|].
  cbn [insert_by_streak]. destruct (Z.leb_spec (streak b) (streak a)) as [Hle|Hlt];
    [reflexivity|].
  simpl in *. rewrite IH. unfold with_streak.
  destruct (Z.eqb_spec (streak a) k) as [Ha|Ha];
    destruct (Z.eqb_spec (streak b) k) as [Hb|Hb]; try reflexivity.
  lia.
Qed.

(** The sort is stable: agents with the same streak keep their order. *)
Lemma sorted_by_streak_stable (k : Z) (l : list agent) :
  List.filter (with_streak k) (sorted_by_streak l) = List.filter (with_streak k) l.
Proof.
  induction l as [|a l IH]; [reflexivity|].
  cbn [sorted_by_streak foldr]. rewrite with_streak_insert.
  simpl. fold (sorted_by_streak l). rewrite IH. reflexivity.
Qed.

Lemma filter_none {A : Type} (f : A → bool) (l : list A) :
  Forall (fun x => f x = false) l → List.filter f l = [].
Proof.
  induction 1 as [|x l Hx Hl IH]; simpl; [reflexivity|]. rewrite Hx. exact IH.
Qed.

Lemma filter_filter_weaker {A : Type} (f g : A → bool) (l : list A) :
  (∀ x, f x = true → g x = true) →
  List.filter f (List.filter g l) = List.filter f l.
Proof.
  intros Hfg. induction l as [|x l IH]; simpl; [reflexivity|].
  destruct (g x) eqn:Hg; simpl; [rewrite IH; reflexivity|].
  destruct (f x) eqn:Hf; [|exact IH].
  rewrite (Hfg x Hf) in Hg. discriminate.
Qed.

End SelectorMore.

(** X7.  When every entry of the target pools has its name and state, the
    loop over the inventory gives exactly the waiting entries of the target
    pools, in the order of the inventory, each with its signed streak,
    after the agents it started from. *)
Theorem collect_agents_selects (servers : list string)
        (data : list Inventory.entry) (agents : list agent) :
  Forall (fun entry => in_target_servers servers entry = true → has_keys entry)
         data →
  collect_agents servers data agents
  = Ok (agents ++ omap to_agent (List.filter (in_target_servers servers) data)).
Proof. apply collect_agents_ok. Qed.

(** X8.  One entry of a target pool without a name or a state stops the
    run: the selector raises [KeyError], [run] returns 1 and the world is
    as it was, however many good agents the inventory has. *)
Theorem run_stops_on_entry_without_keys (env : Env)
        (agent_limit completion_threshold : Z) (servers : list string)
        (data : list Inventory.entry) (entry : Inventory.entry) (w : world) :
  servers_file env = Some servers →
  inventory env = Some data →
  entry ∈ data →
  in_target_servers servers entry = true →
  Inventory.name entry = None ∨ Inventory.state entry = None →
  get_available_agents env servers w = (Raise KeyError, w)
  ∧ run env agent_limit completion_threshold w = (Ok 1%Z, w).
Proof.
  intros Hservers Hdata Hin Htarget Hmissing.
  assert (get_available_agents env servers w = (Raise KeyError, w)) as Hsel.
  { rewrite get_available_agents_eq, Hdata.
    rewrite (collect_agents_raises servers data [] entry Hin Htarget Hmissing).
    reflexivity. }
  split; [exact Hsel|].
  unfold run, try_except, bind at 1, read_servers_file. rewrite Hservers.
  unfold ret at 1. unfold bind at 1. rewrite Hsel. reflexivity.
Qed.

(** X9.  Ties keep the order of the inventory: among the agents whose
    streak is a given number that is not positive, the ranking has the
    order the selector collected them in. *)
Theorem rank_agents_keeps_ties (env : Env) (agents : list agent) (k : Z) :
  (k <= 0)%Z →
  List.filter (with_streak k) (rank_agents env agents)
  = List.filter (with_streak k) agents.
Proof.
  intros Hk. unfold rank_agents. rewrite List.filter_app.
  rewrite (filter_none (with_streak k)).
  2:{ eapply Permutation_Forall; [apply shuffle_perm|].
      eapply Forall_impl; [apply filter_all|]. unfold with_streak. simpl.
      intros a Ha. apply Z.eqb_neq. lia. }
  simpl. rewrite filter_filter_weaker.
  2:{ unfold with_streak. intros a Ha. apply Z.eqb_eq in Ha. apply Z.leb_le. lia. }
  apply sorted_by_streak_stable.
Qed.

(** X10.  When the servers file cannot be read, [run] returns 1 and the
    world is as it was. *)
Theorem run_fails_without_servers_file (env : Env)
        (agent_limit completion_threshold : Z) (w : world) :
  servers_file env = None →
  run env agent_limit completion_threshold w = (Ok 1%Z, w).
Proof.
  intros Hservers.
  unfold run, try_except, bind at 1, read_servers_file. rewrite Hservers.
  reflexivity.
Qed.

(** X11.  When the inventory cannot be fetched and the agent limit is one
    or more, [run] returns 1 and the world is as it was: nothing removed,
    nothing written, no command run. *)
Theorem run_fails_without_inventory (env : Env)
        (agent_limit completion_threshold : Z) (servers : list string)
        (w : world) :
  inventory env = None →
  servers_file env = Some servers →
  (0 < agent_limit)%Z →
  run env agent_limit completion_threshold w = (Ok 1%Z, w).
Proof.
  intros Hinv Hservers Hlimit.
  assert (get_available_agents env servers w = (Ok [], w)) as Hsel.
  { rewrite get_available_agents_eq, Hinv. reflexivity. }
  unfold run, try_except, bind at 1, read_servers_file. rewrite Hservers.
  unfold ret at 1. unfold bind at 1. rewrite Hsel.
  assert (PyStr.slice_to (@nil string) agent_limit = []) as ->.
  { unfold PyStr.slice_to. destruct (0 <=? agent_limit)%Z; apply take_nil. }
  simpl length. rewrite (proj2 (Z.ltb_lt _ _)) by (simpl; lia). reflexivity.
Qed.

(** X12.  A [KeyError] out of the selector has its cause in the inventory:
    when [get_available_agents] raises [KeyError], the inventory was
    fetched and has an entry of a target pool without a name or a state. *)
Theorem KeyError_comes_from_an_entry_without_keys (env : Env)
        (servers : list string) (w : world) :
  fst (get_available_agents env servers w) = Raise KeyError →
  ∃ data entry,
    inventory env = Some data ∧ entry ∈ data
    ∧ in_target_servers servers entry = true
    ∧ (Inventory.name entry = None ∨ Inventory.state entry = None).
Proof.
  rewrite get_available_agents_eq. simpl.
  destruct (inventory env) as [data|]; [|discriminate].
  destruct (collect_agents servers data []) as [agents|e'] eqn:Hcollect;
    [discriminate|].
  intros [= ->].
  destruct (collect_agents_never_other servers data [] KeyError Hcollect)
    as [_ (entry & Hin & Htarget & Hmissing)].
  exists data, entry. auto.
Qed.

(** ** Further properties: job descriptions *)

Section JobFiles.

Variable env : Env.

Local Arguments String.append : simpl nomatch.

Lemma endswith_app (suffix pre s : string) :
  PyStr.endswith suffix s = true →
  PyStr.endswith suffix (String.append pre s) = true.
Proof.
  intros Hs. induction pre as [|c pre IH]; simpl; [exact Hs|].
  rewrite IH. apply orb_true_r.
Qed.

Lemma length_append_sum (a b : string) :
  String.length (String.append a b) = (String.length a + String.length b)%nat.
Proof. induction a as [|c a IH]; simpl; [reflexivity|]. rewrite IH. reflexivity. Qed.

(** The name given to a job description always fits the pattern. *)
Lemma job_file_of_is_job_file (agent : string) :
  is_job_file (job_file_of agent) = true.
Proof.
  unfold is_job_file, job_file_of.
  apply andb_true_iff. split; [apply andb_true_iff; split|].
  - simpl. destruct (String.append agent ".yaml"); reflexivity.
  - apply endswith_app, endswith_app. reflexivity.
  - apply Nat.leb_le. rewrite !length_append_sum.
    change (String.length "testflinger-") with 12%nat.
    change (String.length ".yaml") with 5%nat. lia.
Qed.

Lemma get_yaml_files_eq (w : world) : get_yaml_files w = (Ok (listed w), w).
Proof. reflexivity. Qed.

Lemma create_file_output_dir (f g : string) (w : world) :
  g ∈ output_dir (create_file f w) ↔ g = f ∨ g ∈ output_dir w.
Proof.
  unfold create_file. destruct (bool_decide_reflect (f ∈ output_dir w)) as [Hin|Hout].
  - split; [auto|]. intros [->|?]; assumption.
  - simpl. rewrite elem_of_app, list_elem_of_singleton. tauto.
Qed.

Lemma generate_yaml_files_cons (a : string) (rest : list string) (w : world) :
  generate_yaml_files env (a :: rest) w
  = generate_yaml_files env rest
      (match render env (trace w) a with
       | Rendered =>
           emit (WriteYaml (in_output_dir (job_file_of a)))
                (create_file (job_file_of a) w)
       | FailsAfterOpen => create_file (job_file_of a) w
       | FailsBeforeOpen => w
       end).
Proof.
  cbn [generate_yaml_files]. unfold bind, get, modify, ret.
  destruct (render env (trace w) a); reflexivity.
Qed.

(** What the output directory holds after the descriptions were generated:
    what it held before, and descriptions of the agents. *)
Lemma generate_yaml_files_output_dir (agents : list string) (w : world) :
  (∀ g, g ∈ output_dir w → g ∈ output_dir (generate_yaml_files env agents w).2)
  ∧ (∀ g, g ∈ output_dir (generate_yaml_files env agents w).2 →
          g ∈ output_dir w ∨ ∃ a, a ∈ agents ∧ g = job_file_of a)
  ∧ ((∀ t a, render env t a ≠ FailsBeforeOpen) →
     ∀ a, a ∈ agents →
          job_file_of a ∈ output_dir (generate_yaml_files env agents w).2).
Proof.
  revert w. induction agents as [|a rest IH]; intros w.
  { simpl. split; [auto|]. split; [auto|]. intros _ a Ha. inversion Ha. }
  rewrite generate_yaml_files_cons.
  set (w1 := match render env (trace w) a with
             | Rendered =>
                 emit (WriteYaml (in_output_dir (job_file_of a)))
                      (create_file (job_file_of a) w)
             | FailsAfterOpen => create_file (job_file_of a) w
             | FailsBeforeOpen => w
             end).
  assert ((∀ h, h ∈ output_dir w → h ∈ output_dir w1)
          ∧ (∀ h, h ∈ output_dir w1 → h ∈ output_dir w ∨ h = job_file_of a)
          ∧ (render env (trace w) a ≠ FailsBeforeOpen →
             job_file_of a ∈ output_dir w1)) as (Hup & Hdown & Hnew).
  { subst w1. destruct (render env (trace w) a); simpl.
    - split; [intros h Hh; apply create_file_output_dir; auto|].
      split; [intros h Hh; apply create_file_output_dir in Hh; tauto|].
      intros _. apply create_file_output_dir. auto.
    - split; [auto|]. split; [auto|]. intros Hne. contradiction.
    - split; [intros h Hh; apply create_file_output_dir; auto|].
      split; [intros h Hh; apply create_file_output_dir in Hh; tauto|].
      intros _. apply create_file_output_dir. auto. }
  destruct (IH w1) as (IHup & IHdown & IHnew).
  split; [auto|]. split.
  - intros g Hg. destruct (IHdown g Hg) as [Hg1|(b & Hb & ->)].
    + destruct (Hdown g Hg1) as [?| ->]; [auto|].
      right. exists a. split; [left|reflexivity].
    + right. exists b. split; [right; exact Hb|reflexivity].
  - intros Hrender b Hb. apply elem_of_cons in Hb as [->|Hb].
    + apply IHup, Hnew, Hrender.
    + apply IHnew; assumption.
Qed.

Lemma filter_filter_and {A : Type} (f g : A → bool) (l : list A) :
  List.filter f (List.filter g l) = List.filter (fun x => g x && f x) l.
Proof.
  induction l as [|x l IH]; simpl; [reflexivity|].
  destruct (g x); simpl; [|exact IH]. destruct (f x); rewrite IH; reflexivity.
Qed.

Lemma delete_each_cons (f : string) (rest : list string) (w : world) :
  delete_each env (f :: rest) w
  = delete_each env rest
      (if remove_raises env (trace w) (in_output_dir f)
       then emit (Remove (in_output_dir f)) w
       else set_output_dir
              (List.filter (fun g => negb (String.eqb g f)) (output_dir w))
              (emit (Remove (in_output_dir f)) w)).
Proof.
  cbn [delete_each]. unfold bind, get, modify, ret.
  destruct (remove_raises env (trace w) (in_output_dir f)); reflexivity.
Qed.

(** Removing files takes away job descriptions only, and all of the named
    ones when no removal fails. *)
Lemma delete_each_output_dir (names : list string) (w : world) :
  Forall (fun f => is_job_file f = true) names →
  other_files (delete_each env names w).2 = other_files w
  ∧ ((∀ t p, remove_raises env t p = false) →
     output_dir (delete_each env names w).2
     = List.filter (fun g => forallb (fun f => negb (String.eqb g f)) names)
                   (output_dir w)).
Proof.
  intros Hnames. revert w.
  induction Hnames as [|f rest Hf Hrest IH]; intros w.
  { simpl. split; [reflexivity|]. intros _.
    induction (output_dir w) as [|g l IHl]; simpl; congruence. }
  rewrite delete_each_cons.
  destruct (remove_raises env (trace w) (in_output_dir f)) eqn:Hraise.
  - destruct (IH (emit (Remove (in_output_dir f)) w)) as [IH1 IH2].
    split; [rewrite IH1; reflexivity|]. intros Hno.
    rewrite Hno in Hraise. discriminate.
  - match goal with
    | |- context [delete_each env rest ?w1] =>
        destruct (IH w1) as [IH1 IH2]
    end.
    split.
    + rewrite IH1. unfold other_files. simpl. rewrite filter_filter_and.
      apply List.filter_ext. intros g.
      destruct (String.eqb_spec g f) as [->|Hne]; simpl; [|reflexivity].
      rewrite Hf. reflexivity.
    + intros Hno. rewrite (IH2 Hno). simpl. rewrite filter_filter_and.
      reflexivity.
Qed.

Lemma delete_yaml_files_eq (w : world) :
  delete_yaml_files env w
  = delete_each env (List.filter is_job_file (output_dir w)) w.
Proof. reflexivity. Qed.

Lemma delete_yaml_files_output_dir (w : world) :
  other_files (snd (delete_yaml_files env w)) = other_files w
  ∧ ((∀ t p, remove_raises env t p = false) →
     output_dir (snd (delete_yaml_files env w)) = other_files w
     ∧ listed (snd (delete_yaml_files env w)) = []).
Proof.
  rewrite delete_yaml_files_eq.
  destruct (delete_each_output_dir (List.filter is_job_file (output_dir w)) w)
    as [Hother Hall].
  { apply filter_all. }
  split; [exact Hother|]. intros Hno.
  assert (output_dir (delete_each env (List.filter is_job_file (output_dir w)) w).2
          = other_files w) as Hdir.
  { rewrite (Hall Hno). unfold other_files. apply List.filter_ext_in.
    intros g Hg. destruct (is_job_file g) eqn:Hjob; simpl.
    - apply not_true_is_false. intros Hall'.
      rewrite forallb_forall in Hall'.
      specialize (Hall' g (proj2 (List.filter_In _ _ _) (conj Hg Hjob))).
      rewrite String.eqb_refl in Hall'. discriminate.
    - apply forallb_forall. intros f Hf. apply List.filter_In in Hf as [_ Hf].
      destruct (String.eqb_spec g f) as [->|]; [congruence|reflexivity]. }
  split; [exact Hdir|].
  unfold listed. rewrite Hdir. unfold other_files. rewrite filter_filter_and.
  rewrite (filter_none (fun x => negb (is_job_file x) && is_job_file x));
    [reflexivity|].
  apply Forall_forall. intros g _. destruct (is_job_file g); reflexivity.
Qed.

End JobFiles.

(** X13.  What [generate_yaml_files] writes is what [get_yaml_files] finds:
    unless a rendering fails before its file is opened, the description of
    every agent whose name has no [/] in it (so that the file lies in the
    output directory itself) is among the files listed for submission
    afterwards. *)
Theorem generated_files_are_listed (env : Env) (agents : list string)
        (w : world) (agent : string) :
  (∀ t a, render env t a ≠ FailsBeforeOpen) →
  agent ∈ agents →
  PyStr.contains "/" agent = false →
  in_output_dir (job_file_of agent)
  ∈ listed (snd (generate_yaml_files env agents w)).
Proof.
  intros Hrender Hin _. unfold listed.
  apply list_elem_of_fmap_2. apply list_elem_of_In, List.filter_In.
  split; [|apply job_file_of_is_job_file].
  apply list_elem_of_In.
  apply (proj2 (proj2 (generate_yaml_files_output_dir env agents w)) Hrender).
  exact Hin.
Qed.

(** X14.  [delete_yaml_files] touches job descriptions only: the other files
    of the output directory are the same afterwards, in the same order,
    whether removals fail or not; and when no removal fails, no job
    description is left. *)
Theorem delete_yaml_files_removes_job_files (env : Env) (w : world) :
  other_files (snd (delete_yaml_files env w)) = other_files w
  ∧ ((∀ t p, remove_raises env t p = false) →
     output_dir (snd (delete_yaml_files env w)) = other_files w
     ∧ listed (snd (delete_yaml_files env w)) = []).
Proof. apply delete_yaml_files_output_dir. Qed.

(** X15.  Deleting and then generating leaves only fresh descriptions to
    submit: when no removal fails, every file listed for submission after
    [delete_yaml_files] and [generate_yaml_files] is the description of one
    of the agents, whatever the output directory held before. *)
Theorem only_fresh_files_are_listed (env : Env) (agents : list string)
        (w : world) (file : string) :
  (∀ t p, remove_raises env t p = false) →
  file ∈ listed (snd (generate_yaml_files env agents
                        (snd (delete_yaml_files env w)))) →
  ∃ agent, agent ∈ agents ∧ file = in_output_dir (job_file_of agent).
Proof.
  intros Hno Hfile. unfold listed in Hfile.
  apply list_elem_of_fmap in Hfile as (g & -> & Hg).
  apply list_elem_of_In, List.filter_In in Hg as [Hg Hjob].
  apply list_elem_of_In in Hg.
  apply (proj1 (proj2 (generate_yaml_files_output_dir env agents _))) in Hg
    as [Hold|(agent & Hagent & ->)].
  - exfalso.
    destruct (proj2 (delete_yaml_files_output_dir env w) Hno) as [Hdir _].
    rewrite Hdir in Hold. unfold other_files in Hold.
    apply list_elem_of_In, List.filter_In in Hold as [_ Hnot].
    rewrite Hjob in Hnot. discriminate.
  - exists agent. split; [exact Hagent|reflexivity].
Qed.

(** X16.  [submit_jobs] runs one submit command for every job description
    it finds, in the order of the listing and whether earlier ones failed
    or not; it returns at most one identifier per file, keeps the list in
    [job_ids] and leaves the cancelled set alone. *)
Theorem submit_jobs_submits_every_file (env : Env) (w : world) :
  fst (submit_jobs env w) = Ok (job_ids (snd (submit_jobs env w)))
  ∧ trace (snd (submit_jobs env w)) = trace w ++ map submit_of (listed w)
  ∧ (length (job_ids (snd (submit_jobs env w))) <= length (listed w))%nat
  ∧ cancelled_jobs (snd (submit_jobs env w)) = cancelled_jobs w.
Proof.
  assert (∀ files ids w0,
            ∃ ids' w',
              submit_each env files ids w0 = (Ok ids', w')
              ∧ trace w' = trace w0 ++ map submit_of files
              ∧ (length ids' <= length ids + length files)%nat
              ∧ cancelled_jobs w' = cancelled_jobs w0) as Heach.
  { induction files as [|f rest IH]; intros ids w0.
    { exists ids, w0. simpl. rewrite app_nil_r.
      split; [reflexivity|]. split; [reflexivity|]. split; [lia|reflexivity]. }
    cbn [submit_each]. unfold bind at 1, try_except, bind at 1.
    rewrite call_testflinger_eq.
    destruct (check_output env (trace w0) _) as [out|out str_e|]; simpl.
    - destruct (IH (ids ++ [extract_job_id env out])
                   (emit (Exec (cli ["submit"%string; f])) w0))
        as (ids' & w' & -> & Ht & Hl & Hc).
      exists ids', w'. split; [reflexivity|]. split; [|split].
      + rewrite Ht. simpl. rewrite <- app_assoc. reflexivity.
      + rewrite length_app in Hl. simpl in Hl. lia.
      + exact Hc.
    - destruct (IH ids (emit (Exec (cli ["submit"%string; f])) w0))
        as (ids' & w' & -> & Ht & Hl & Hc).
      exists ids', w'. split; [reflexivity|]. split; [|split].
      + rewrite Ht. simpl. rewrite <- app_assoc. reflexivity.
      + lia.
      + exact Hc.
    - destruct (IH ids (emit (Exec (cli ["submit"%string; f])) w0))
        as (ids' & w' & -> & Ht & Hl & Hc).
      exists ids', w'. split; [reflexivity|]. split; [|split].
      + rewrite Ht. simpl. rewrite <- app_assoc. reflexivity.
      + lia.
      + exact Hc. }
  destruct (Heach (listed w) [] w) as (ids' & w' & Heq & Ht & Hl & Hc).
  assert (submit_jobs env w = (Ok ids', set_job_ids ids' w')) as ->.
  { unfold submit_jobs, bind at 1. rewrite get_yaml_files_eq. unfold bind at 1.
    rewrite Heq. reflexivity. }
  simpl. split; [reflexivity|]. split; [exact Ht|].
  split; [simpl in Hl; exact Hl|exact Hc].
Qed.

(** ** Further properties: the monitoring phase *)

Section Pool.

Variable env : Env.

Lemma new_pool_tokens (subjobs : list string) (j : string) :
  cancellation_tokens (new_pool subjobs) !! j
  = if bool_decide (j ∈ subjobs) then Some false else None.
Proof.
  unfold new_pool. simpl. induction subjobs as [|a l IH]; simpl.
  { rewrite lookup_empty. reflexivity. }
  rewrite lookup_insert. destruct (decide (a = j)) as [->|Hne].
  - rewrite bool_decide_eq_true_2 by (left). reflexivity.
  - rewrite IH. destruct (bool_decide_reflect (j ∈ l)) as [Hin|Hout].
    + rewrite bool_decide_eq_true_2 by (right; exact Hin). reflexivity.
    + rewrite bool_decide_eq_false_2; [reflexivity|].
      intros Hin. apply elem_of_cons in Hin as [->|]; contradiction.
Qed.

Lemma pool_inv_new (subjobs : list string) (threshold : Z) :
  pool_inv subjobs threshold (new_pool subjobs).
Proof.
  assert (∀ j, is_Some (cancellation_tokens (new_pool subjobs) !! j) ↔ j ∈ subjobs)
    as Htok.
  { intros j. rewrite new_pool_tokens.
    destruct (bool_decide_reflect (j ∈ subjobs)); split; intros H;
      try assumption; try (eexists; reflexivity); try contradiction.
    destruct H. discriminate. }
  split; [exact Htok|]. split.
  { intros j [r Hr]. simpl in Hr. rewrite lookup_empty in Hr. discriminate. }
  split; [constructor|]. split; [intros j Hj; inversion Hj|].
  split; [simpl; lia|]. split; [simpl; lia|]. simpl. split; [|right; reflexivity].
  intros j token Hj. change (cancellation_tokens (new_pool subjobs) !! j = Some token) in Hj.
  rewrite new_pool_tokens in Hj. destruct (bool_decide _); congruence.
Qed.

(** A monitor whose token is not set runs no command and cancels nothing. *)
Lemma monitor_subjob_unsignalled (subjob : string) (open_raises : bool)
      (events : list poll_event) (w : world) :
  trace (monitor_subjob env subjob open_raises events false w).2 = trace w
  ∧ cancelled_jobs (monitor_subjob env subjob open_raises events false w).2
    = cancelled_jobs w.
Proof. split; reflexivity. Qed.

Lemma monitor_subjob_returns (subjob : string) (open_raises : bool)
      (events : list poll_event) (is_cancelled : bool) (w : world) :
  ∃ r, monitor_subjob env subjob open_raises events is_cancelled w
       = (Ok r, (monitor_subjob env subjob open_raises events is_cancelled w).2).
Proof.
  destruct (monitor_subjob_eq env subjob open_raises events is_cancelled w)
    as [Hret _]. cbv zeta in Hret.
  destruct (monitor_subjob env subjob open_raises events is_cancelled w)
    as [res w1]. simpl in *. subst res. eexists. reflexivity.
Qed.

Lemma on_completion_inv (subjobs : list string) (threshold : Z) (job : string)
      (r : result) (p : pool) :
  pool_inv subjobs threshold p →
  left_loop p = false → job ∉ completed_futures p →
  done_futures p !! job = Some r →
  pool_inv subjobs threshold (on_completion threshold job r p).
Proof.
  intros (Htok & Hdone & Hnd & Hcf & Hcount & Hmax & Hphase) Hleft Hnew Hr.
  rewrite Hleft in Hphase. destruct Hphase as [Hall Hbelow].
  unfold on_completion.
  set (count' := if negb (PyStr.falsy (ip r)) then (completed_count p + 1)%Z
                 else completed_count p).
  assert (completed_count p <= count' <= completed_count p + 1)%Z as Hstep.
  { subst count'. destruct (negb _); lia. }
  assert (NoDup (completed_futures p ++ [job])) as Hnd'.
  { apply NoDup_app. split; [exact Hnd|]. split; [|apply NoDup_singleton].
    intros x Hx Hx'. apply list_elem_of_singleton in Hx'. subst x. contradiction. }
  assert (∀ j, j ∈ completed_futures p ++ [job] → is_Some (done_futures p !! j))
    as Hcf'.
  { intros j Hj. apply elem_of_app in Hj as [Hj|Hj]; [apply Hcf; exact Hj|].
    apply list_elem_of_singleton in Hj. subst j. eexists. exact Hr. }
  assert (0 <= count' <= Z.of_nat (length (completed_futures p ++ [job])))%Z
    as Hcount'.
  { rewrite length_app. simpl. lia. }
  assert (count' <= Z.max threshold 1)%Z as Hmax'.
  { destruct Hbelow as [Hlt|Hnone]; [lia|].
    rewrite Hnone in Hcount. simpl in Hcount. lia. }
  destruct (Z.leb_spec threshold count') as [Hreached|Hnot].
  - split; [|split; [exact Hdone|split; [exact Hnd'|split; [exact Hcf'|
      split; [exact Hcount'|split; [exact Hmax'|]]]]]]; simpl.
    + intros j. rewrite cancel_remaining_lookup. rewrite <- Htok.
      destruct (cancellation_tokens p !! j); split; intros [x Hx];
        try discriminate; eexists; reflexivity.
    + split; [exact Hreached|]. exists job. split; [apply last_snoc|].
      intros j token. rewrite cancel_remaining_lookup.
      destruct (cancellation_tokens p !! j) as [token0|] eqn:Hj; [|discriminate].
      rewrite (Hall j token0 Hj). intros [= <-].
      destruct (String.eqb j job); reflexivity.
  - split; [exact Htok|split; [exact Hdone|split; [exact Hnd'|split; [exact Hcf'|
      split; [exact Hcount'|split; [exact Hmax'|]]]]]]; simpl.
    split; [exact Hall|left; exact Hnot].
Qed.

(** One step keeps the invariant, never raises, and as long as the loop has
    not been left it runs no command and cancels nothing. *)
Lemma step_inv (subjobs : list string) (threshold : Z) (a : action) (p : pool)
      (w : world) :
  pool_inv subjobs threshold p →
  ∃ p1 w1,
    step env threshold a p w = (Ok p1, w1)
    ∧ pool_inv subjobs threshold p1
    ∧ (left_loop p1 = false →
       left_loop p = false ∧ trace w1 = trace w
       ∧ cancelled_jobs w1 = cancelled_jobs w).
Proof.
  intros Hinv.
  assert (∃ p1 w1, (Ok p, w) = (Ok p1, w1) ∧ pool_inv subjobs threshold p1
                   ∧ (left_loop p1 = false →
                      left_loop p = false ∧ trace w1 = trace w
                      ∧ cancelled_jobs w1 = cancelled_jobs w)) as Hsame.
  { exists p, w. split; [reflexivity|]. split; [exact Hinv|]. auto. }
  pose proof Hinv as (Htok & Hdone & Hnd & Hcf & Hcount & Hmax & Hphase).
  destruct a as [job open_raises events|job|job]; simpl.
  - destruct (cancellation_tokens p !! job) as [token|] eqn:Htoken;
      [|exact Hsame].
    destruct (done_futures p !! job) eqn:Hd; [exact Hsame|].
    unfold bind.
    destruct (monitor_subjob_returns job open_raises events token w) as [r Hm].
    rewrite Hm. eexists _, _. split; [reflexivity|]. split.
    + split; [exact Htok|]. split.
      { intros j Hj. simpl in Hj. apply lookup_insert_is_Some in Hj as [<-|[_ Hj]].
        - apply Htok. eexists. exact Htoken.
        - apply Hdone. exact Hj. }
      split; [exact Hnd|]. split.
      { intros j Hj. simpl. apply lookup_insert_is_Some'. right. apply Hcf, Hj. }
      split; [exact Hcount|]. split; [exact Hmax|exact Hphase].
    + simpl. intros Hleft. split; [exact Hleft|].
      rewrite Hleft in Hphase. destruct Hphase as [Hall _].
      rewrite (Hall job token Htoken). apply monitor_subjob_unsignalled.
  - destruct (cancellation_tokens p !! job) as [[|]|] eqn:Htoken;
      [|exact Hsame|exact Hsame].
    unfold bind. rewrite safe_cancel_job_eq. simpl.
    eexists _, _. split; [reflexivity|]. split; [exact Hinv|].
    intros Hleft. rewrite Hleft in Hphase. destruct Hphase as [Hall _].
    specialize (Hall job true Htoken). discriminate.
  - destruct (left_loop p) eqn:Hleft; simpl; [exact Hsame|].
    destruct (bool_decide_reflect (job ∈ completed_futures p)) as [Hin|Hout];
      [exact Hsame|].
    destruct (done_futures p !! job) as [r|] eqn:Hd; [|exact Hsame].
    eexists _, _. split; [reflexivity|]. split.
    + apply on_completion_inv; assumption.
    + intros _. auto.
Qed.

Lemma steps_inv (subjobs : list string) (threshold : Z) (actions : list action)
      (p : pool) (w : world) :
  pool_inv subjobs threshold p →
  ∃ p1 w1,
    steps env threshold actions p w = (Ok p1, w1)
    ∧ pool_inv subjobs threshold p1
    ∧ (left_loop p1 = false →
       left_loop p = false ∧ trace w1 = trace w
       ∧ cancelled_jobs w1 = cancelled_jobs w).
Proof.
  revert p w. induction actions as [|a rest IH]; intros p w Hinv.
  { exists p, w. split; [reflexivity|]. split; [exact Hinv|]. auto. }
  destruct (step_inv subjobs threshold a p w Hinv) as (p1 & w1 & Hstep & Hinv1 & Hq1).
  destruct (IH p1 w1 Hinv1) as (p2 & w2 & Hsteps & Hinv2 & Hq2).
  exists p2, w2. split.
  { cbn [steps]. unfold bind. rewrite Hstep. exact Hsteps. }
  split; [exact Hinv2|]. intros Hleft.
  destruct (Hq2 Hleft) as (Hleft1 & Ht2 & Hc2).
  destruct (Hq1 Hleft1) as (Hleft0 & Ht1 & Hc1).
  split; [exact Hleft0|]. split; congruence.
Qed.

Lemma handled_are_jobs (subjobs : list string) (threshold : Z) (p : pool) :
  pool_inv subjobs threshold p →
  (length (completed_futures p) <= length subjobs)%nat.
Proof.
  intros (Htok & Hdone & Hnd & Hcf & _).
  apply submseteq_length, NoDup_submseteq; [exact Hnd|].
  intros j Hj. apply Hdone, Hcf, Hj.
Qed.

(** A token that is set stays set, and no token comes or goes. *)
Lemma step_tokens (threshold : Z) (a : action) (p : pool) (w : world) :
  ∃ p1 w1,
    step env threshold a p w = (Ok p1, w1)
    ∧ ∀ j, (cancellation_tokens p !! j = Some true →
            cancellation_tokens p1 !! j = Some true)
           ∧ (is_Some (cancellation_tokens p1 !! j)
              ↔ is_Some (cancellation_tokens p !! j)).
Proof.
  assert (∃ p1 w1, (Ok p, w) = (Ok p1, w1)
                   ∧ ∀ j, (cancellation_tokens p !! j = Some true →
                           cancellation_tokens p1 !! j = Some true)
                          ∧ (is_Some (cancellation_tokens p1 !! j)
                             ↔ is_Some (cancellation_tokens p !! j))) as Hsame.
  { exists p, w. split; [reflexivity|]. intros j. split; [auto|reflexivity]. }
  destruct a as [job open_raises events|job|job]; simpl.
  - destruct (cancellation_tokens p !! job) as [token|]; [|exact Hsame].
    destruct (done_futures p !! job); [exact Hsame|].
    unfold bind.
    destruct (monitor_subjob_returns job open_raises events token w) as [r Hm].
    rewrite Hm. eexists _, _. split; [reflexivity|].
    intros j. simpl. split; [auto|reflexivity].
  - destruct (cancellation_tokens p !! job) as [[|]|]; try exact Hsame.
    unfold bind. rewrite safe_cancel_job_eq. simpl.
    eexists _, _. split; [reflexivity|]. intros j. split; [auto|reflexivity].
  - destruct (left_loop p || bool_decide (job ∈ completed_futures p));
      [exact Hsame|].
    destruct (done_futures p !! job) as [r|]; [|exact Hsame].
    eexists _, _. split; [reflexivity|]. intros j. unfold on_completion.
    destruct (_ <=? _)%Z; simpl; [|split; [auto|reflexivity]].
    rewrite cancel_remaining_lookup.
    destruct (cancellation_tokens p !! j) as [token|].
    + split; [intros [= ->]; destruct (String.eqb j job); reflexivity|].
      split; intros _; eexists; reflexivity.
    + split; [discriminate|reflexivity].
Qed.

End Pool.

(** X17.  The tally that [monitor_subjobs] returns is never negative, never
    more than the number of jobs, and never more than the threshold (than
    one, for a threshold below one), whatever the schedule. *)
Theorem monitor_subjobs_tally_bounds (env : Env) (subjobs : list string)
        (completion_threshold : Z) (w : world) :
  ∃ tally,
    fst (monitor_subjobs env subjobs completion_threshold w) = Ok tally
    ∧ (0 <= tally <= Z.of_nat (length subjobs))%Z
    ∧ (tally <= Z.max completion_threshold 1)%Z.
Proof.
  destruct (steps_inv env subjobs completion_threshold (schedule env)
              (new_pool subjobs) w (pool_inv_new subjobs completion_threshold))
    as (p & w' & Hsteps & Hinv & _).
  unfold monitor_subjobs, bind. rewrite Hsteps. simpl.
  exists (completed_count p). split; [reflexivity|].
  pose proof (handled_are_jobs subjobs completion_threshold p Hinv) as Hlen.
  destruct Hinv as (_ & _ & _ & _ & Hcount & Hmax & _). split; [lia|exact Hmax].
Qed.

(** X18.  A monitoring phase that ends below the threshold has run no
    command and cancelled nothing: the trace and the cancelled set are as
    they were before it. *)
Theorem monitor_subjobs_quiet_below_threshold (env : Env)
        (subjobs : list string) (completion_threshold tally : Z) (w : world) :
  fst (monitor_subjobs env subjobs completion_threshold w) = Ok tally →
  (tally < completion_threshold)%Z →
  trace (snd (monitor_subjobs env subjobs completion_threshold w)) = trace w
  ∧ cancelled_jobs (snd (monitor_subjobs env subjobs completion_threshold w))
    = cancelled_jobs w.
Proof.
  destruct (steps_inv env subjobs completion_threshold (schedule env)
              (new_pool subjobs) w (pool_inv_new subjobs completion_threshold))
    as (p & w' & Hsteps & Hinv & Hquiet).
  unfold monitor_subjobs, bind. rewrite Hsteps. simpl.
  intros [= <-] Hbelow.
  destruct (left_loop p) eqn:Hleft.
  - destruct Hinv as (_ & _ & _ & _ & _ & _ & Hphase).
    rewrite Hleft in Hphase. destruct Hphase as [Hreached _]. lia.
  - destruct (Hquiet eq_refl) as (_ & Ht & Hc). split; assumption.
Qed.

(** X19.  A cancellation token is one way: through any steps of the
    monitoring phase, from any state of the pool, a token that is set stays
    set, and the jobs that have a token stay the same. *)
Theorem tokens_are_one_way (env : Env) (completion_threshold : Z)
        (actions : list action) (p : pool) (w : world) :
  ∃ p' w',
    steps env completion_threshold actions p w = (Ok p', w')
    ∧ ∀ j, (cancellation_tokens p !! j = Some true →
            cancellation_tokens p' !! j = Some true)
           ∧ (is_Some (cancellation_tokens p' !! j)
              ↔ is_Some (cancellation_tokens p !! j)).
Proof.
  revert p w. induction actions as [|a rest IH]; intros p w.
  { exists p, w. split; [reflexivity|]. intros j. split; [auto|reflexivity]. }
  destruct (step_tokens env completion_threshold a p w) as (p1 & w1 & Hstep & H1).
  destruct (IH p1 w1) as (p2 & w2 & Hsteps & H2).
  exists p2, w2. split.
  { cbn [steps]. unfold bind. rewrite Hstep. exact Hsteps. }
  intros j. destruct (H1 j) as [H1a H1b]. destruct (H2 j) as [H2a H2b].
  split; [auto|]. rewrite H2b. exact H1b.
Qed.

(** X20.  When the loop of [monitor_subjobs] is left because the tally
    reached the threshold, the job handled last is the one that brought it
    there; its token is not set, and the token of every other job is. *)
Theorem sweep_signals_all_but_trigger (env : Env) (subjobs : list string)
        (completion_threshold : Z) (actions : list action) (w w' : world)
        (p : pool) :
  steps env completion_threshold actions (new_pool subjobs) w = (Ok p, w') →
  left_loop p = true →
  ∃ trigger,
    last (completed_futures p) = Some trigger
    ∧ trigger ∈ subjobs
    ∧ (completion_threshold <= completed_count p)%Z
    ∧ cancellation_tokens p !! trigger = Some false
    ∧ ∀ j, j ∈ subjobs → j ≠ trigger →
           cancellation_tokens p !! j = Some true.
Proof.
  intros Hsteps Hleft.
  destruct (steps_inv env subjobs completion_threshold actions
              (new_pool subjobs) w (pool_inv_new subjobs completion_threshold))
    as (p1 & w1 & Hsteps1 & Hinv & _).
  rewrite Hsteps in Hsteps1. injection Hsteps1 as <- <-.
  destruct Hinv as (Htok & Hdone & _ & Hcf & _ & _ & Hphase).
  rewrite Hleft in Hphase. destruct Hphase as (Hreached & trigger & Hlast & Hset).
  assert (trigger ∈ subjobs) as Hin.
  { apply Hdone, Hcf. apply last_Some_elem_of. exact Hlast. }
  exists trigger. split; [exact Hlast|]. split; [exact Hin|].
  split; [exact Hreached|]. split.
  - destruct (proj2 (Htok trigger) Hin) as [token Htoken].
    rewrite Htoken, (Hset trigger token Htoken), String.eqb_refl. reflexivity.
  - intros j Hj Hne. destruct (proj2 (Htok j) Hj) as [token Htoken].
    rewrite Htoken, (Hset j token Htoken).
    rewrite (proj2 (String.eqb_neq j trigger) Hne). reflexivity.
Qed.

(** ** Further properties: verification, cancelling all, the exit code *)

Section Endings.

Variable env : Env.

Lemma verify_loop_keeps (results valid_results : list result) (w : world) :
  ∃ kept,
    fst (verify_loop env results valid_results w) = Ok (valid_results ++ kept)
    ∧ sublist kept results
    ∧ Forall (fun r => job_id r ≠ ""%string) kept.
Proof.
  revert valid_results w.
  induction results as [|r rest IH]; intros valid_results w.
  { exists []. simpl. rewrite app_nil_r. repeat constructor. }
  rewrite verify_loop_cons, verify_one_eq.
  assert (∀ w1, ∃ kept,
            fst (verify_loop env rest valid_results w1) = Ok (valid_results ++ kept)
            ∧ sublist kept (r :: rest)
            ∧ Forall (fun r => job_id r ≠ ""%string) kept) as Hdrop.
  { intros w1. destruct (IH valid_results w1) as (kept & Hk & Hs & Hf).
    exists kept. split; [exact Hk|]. split; [constructor; exact Hs|exact Hf]. }
  destruct (PyStr.falsy (job_id r)) eqn:Hid; [apply Hdrop|]. cbv zeta.
  destruct (check_output env (trace w) _) as [out|out str_e|]; simpl;
    try apply Hdrop.
  destruct (PyStr.contains "reserve" out); simpl; [|apply Hdrop].
  destruct (IH (valid_results ++ [r]) (emit (status_of (job_id r)) w))
    as (kept & Hk & Hs & Hf).
  exists (r :: kept). split; [rewrite Hk, <- app_assoc; reflexivity|].
  split; [constructor; exact Hs|]. constructor; [|exact Hf].
  intros Hempty. rewrite Hempty in Hid. discriminate.
Qed.

Lemma cancel_commands_app (job : string) (s t : list event) :
  cancel_commands job (s ++ t)
  = (cancel_commands job s + cancel_commands job t)%nat.
Proof. unfold cancel_commands. rewrite List.filter_app, length_app. reflexivity. Qed.

Lemma evolves_cancel_commands (job : string) (w w' : world) :
  evolves w w' →
  (cancel_commands job (trace w) <= cancel_commands job (trace w'))%nat.
Proof.
  intros [_ (t & -> & _)]. rewrite cancel_commands_app. lia.
Qed.

Lemma safeCancel_marks_or_tries (job : string) (w : world) :
  job ∈ cancelled_jobs (safeCancel env job w).2
  ∨ (cancel_commands job (trace w)
     < cancel_commands job (trace (safeCancel env job w).2))%nat.
Proof.
  unfold safeCancel.
  destruct (bool_decide_reflect (job ∈ cancelled_jobs w)) as [Hin|Hout];
    simpl; [left; exact Hin|].
  destruct (isRunning env job w); simpl; [|left; set_solver].
  destruct (cancelOutcome env job _); simpl; [left; set_solver|left; set_solver|].
  right. rewrite !cancel_commands_snoc. simpl.
  rewrite bool_decide_eq_true_2 by reflexivity. lia.
Qed.

Lemma cancel_all_cons (job : string) (rest : list string) (w : world) :
  cancel_all env (job :: rest) w
  = cancel_all env rest
      (if bool_decide (job ∈ cancelled_jobs w) then w
       else (safeCancel env job w).2).
Proof.
  cbn [cancel_all]. unfold bind at 1, get. cbv beta iota. unfold bind at 1.
  destruct (bool_decide (job ∈ cancelled_jobs w)); simpl; [reflexivity|].
  unfold bind at 1. rewrite safe_cancel_job_eq. reflexivity.
Qed.

Lemma cancel_all_reaches (jobs : list string) (w : world) (job : string) :
  job ∈ jobs →
  job ∈ cancelled_jobs (cancel_all env jobs w).2
  ∨ (cancel_commands job (trace w)
     < cancel_commands job (trace (cancel_all env jobs w).2))%nat.
Proof.
  revert w. induction jobs as [|j rest IH]; intros w Hin; [inversion Hin|].
  rewrite cancel_all_cons.
  set (w1 := if bool_decide (j ∈ cancelled_jobs w) then w
             else (safeCancel env j w).2).
  assert (evolves w w1) as Hw1.
  { subst w1. destruct (bool_decide _); [apply evolves_refl|].
    apply evolves_safeCancel. }
  pose proof (steady_cancel_all env rest w1) as Hrest.
  pose proof (evolves_cancel_commands job _ _ Hw1) as Hc1.
  pose proof (evolves_cancel_commands job _ _ Hrest) as Hc2.
  apply elem_of_cons in Hin as [->|Hin].
  - assert (j ∈ cancelled_jobs w1
            ∨ (cancel_commands j (trace w) < cancel_commands j (trace w1))%nat)
      as [Hmarked|Htried].
    { subst w1. destruct (bool_decide_reflect (j ∈ cancelled_jobs w));
        [left; assumption|apply safeCancel_marks_or_tries]. }
    + left. destruct Hrest as [Hsub _]. apply Hsub. exact Hmarked.
    + right. lia.
  - destruct (IH w1 Hin) as [?|?]; [left; assumption|right; lia].
Qed.




End Endings.

(** X21.  The verification pass invents and reorders nothing: what it
    returns are records of its input, in the order of the input, and every
    record it returns has a job identifier. *)
Theorem verify_results_keeps_a_sublist (env : Env) (results : list result)
        (w : world) (valid_results : list result) :
  fst (verify_results env results w) = Ok valid_results →
  sublist valid_results results
  ∧ Forall (fun r => job_id r ≠ ""%string) valid_results.
Proof.
  destruct (verify_loop_keeps env results [] w) as (kept & Hk & Hs & Hf).
  unfold verify_results. rewrite Hk. intros [= <-]. split; assumption.
Qed.

(** X22.  The sweep over all jobs that follows a failed monitoring phase
    leaves no job out: afterwards every job of the list is in the cancelled
    set, or a cancel command was run for it during the sweep. *)
Theorem cancel_all_reaches_every_job (env : Env) (jobs : list string)
        (w : world) (job : string) :
  job ∈ jobs →
  job ∈ cancelled_jobs (snd (cancel_all env jobs w))
  ∨ (cancel_commands job (trace w)
     < cancel_commands job (trace (snd (cancel_all env jobs w))))%nat.
Proof. apply cancel_all_reaches. Qed.


(** X24.  The cleanup at the end of a monitor: with its token not set the
    monitor runs no command and leaves the cancelled set alone; with its
    token set, the job is in the cancelled set afterwards, or a cancel
    command was run for it. *)
Theorem monitor_subjob_cleans_up (env : Env) (subjob : string)
        (open_raises : bool) (events : list poll_event) (is_cancelled : bool)
        (w : world) :
  (is_cancelled = false →
   trace (snd (monitor_subjob env subjob open_raises events is_cancelled w))
   = trace w
   ∧ cancelled_jobs (snd (monitor_subjob env subjob open_raises events
                            is_cancelled w))
     = cancelled_jobs w)
  ∧ (is_cancelled = true →
     subjob ∈ cancelled_jobs (snd (monitor_subjob env subjob open_raises events
                                     is_cancelled w))
     ∨ (cancel_commands subjob (trace w)
        < cancel_commands subjob
            (trace (snd (monitor_subjob env subjob open_raises events
                           is_cancelled w))))%nat).
Proof.
  split.
  - intros ->. apply monitor_subjob_unsignalled.
  - intros ->. unfold monitor_subjob, bind, get, modify. simpl.
    destruct (bool_decide_reflect (subjob ∈ cancelled_jobs w)) as [Hin|Hout];
      simpl; [left; exact Hin|].
    rewrite safe_cancel_job_eq. simpl.
    apply safeCancel_marks_or_tries.
Qed.

(** ** The further theorems at work on concrete runs *)

(** X2 on the run with two jobs and a threshold of one. *)
Lemma run_asks_status_before_cancel_witness :
  trace (snd (run overprovision_env 2 1 empty_world))
  = trace empty_world
    ++ [ WriteYaml job1; WriteYaml job2; submit_of job1; submit_of job2;
         WriteCancelScript [job1; job2]; status_of job2 ]
    ++ cancel_of job2
    :: [ status_of job1; status_of job2;
         Print [Result "10.0.0.1" job1 ""] "10.0.0.1" ]
  ∧ ∃ pre', [ WriteYaml job1; WriteYaml job2; submit_of job1; submit_of job2;
              WriteCancelScript [job1; job2]; status_of job2 ]
            = pre' ++ [status_of job2].
Proof.
  assert (trace (snd (run overprovision_env 2 1 empty_world))
          = trace empty_world
            ++ [ WriteYaml job1; WriteYaml job2; submit_of job1; submit_of job2;
                 WriteCancelScript [job1; job2]; status_of job2 ]
            ++ cancel_of job2
            :: [ status_of job1; status_of job2;
                 Print [Result "10.0.0.1" job1 ""] "10.0.0.1" ]) as H.
  { vm_compute. reflexivity. }
  split; [exact H|].
  exact (run_asks_status_before_cancel overprovision_env 2 1 empty_world _ _ _ H).
Defined.

(** X3 on a monitor whose stream ends without an endpoint. *)
Lemma monitor_subjob_emits_one_record_witness :
  fst (monitor_subjob (reserved_env []) "job1" false [Out "Provisioning"]
         false empty_world) = Ok (Result "" "job1" "")
  ∧ job_id (Result "" "job1" "") = "job1"%string
  ∧ result_queue (snd (monitor_subjob (reserved_env []) "job1" false
                         [Out "Provisioning"] false empty_world))
    = result_queue empty_world ++ [Result "" "job1" ""].
Proof.
  assert (fst (monitor_subjob (reserved_env []) "job1" false
                 [Out "Provisioning"] false empty_world)
          = Ok (Result "" "job1" "")) as H.
  { vm_compute. reflexivity. }
  split; [exact H|].
  exact (monitor_subjob_emits_one_record (reserved_env []) "job1" false
           [Out "Provisioning"] false empty_world (Result "" "job1" "") H).
Defined.

(** X4 on the two lines of the client. *)
Lemma marked_lines_always_parse_witness :
  PyStr.contains provision_marker (PyStr.strip (banner_line "X")) = true
  ∧ PyStr.contains connect_marker (PyStr.strip (ready_line "10.0.0.5")) = true
  ∧ (∃ agent,
       PyStr.neg_index (PyStr.split " " (PyStr.strip (banner_line "X"))) 2
       = Some agent
       ∧ parse_name (PyStr.strip (banner_line "X")) (Result "" "job1" "")
         = set_name agent (Result "" "job1" ""))
  ∧ ∃ address,
      PyStr.neg_index (PyStr.split "@" (PyStr.strip (ready_line "10.0.0.5"))) 1
      = Some address
      ∧ read_loop [Out (ready_line "10.0.0.5"); ReadRaises]
                  (Result "" "job1" "") []
        = (set_ip address
             (parse_name (PyStr.strip (ready_line "10.0.0.5"))
                         (Result "" "job1" "")),
           [] ++ [String.append (PyStr.strip (ready_line "10.0.0.5")) linesep],
           [ReadRaises]).
Proof.
  assert (PyStr.contains provision_marker (PyStr.strip (banner_line "X")) = true)
    as H1.
  { vm_compute. reflexivity. }
  assert (PyStr.contains connect_marker (PyStr.strip (ready_line "10.0.0.5"))
          = true) as H2.
  { vm_compute. reflexivity. }
  split; [exact H1|]. split; [exact H2|]. split.
  - exact (proj1 (marked_lines_always_parse (banner_line "X") []
                    (Result "" "job1" "") []) H1).
  - exact (proj2 (marked_lines_always_parse (ready_line "10.0.0.5") [ReadRaises]
                    (Result "" "job1" "") []) H2).
Defined.

(** X7 on the inventory with two agents. *)
Lemma collect_agents_selects_witness :
  Forall (fun entry => in_target_servers ["pool"%string] entry = true
                       → has_keys entry) two_agents
  ∧ collect_agents ["pool"%string] two_agents []
    = Ok ([] ++ omap to_agent
                  (List.filter (in_target_servers ["pool"%string]) two_agents)).
Proof.
  assert (Forall (fun entry => in_target_servers ["pool"%string] entry = true
                               → has_keys entry) two_agents) as H.
  { repeat constructor; simpl; eexists; reflexivity. }
  split; [exact H|].
  exact (collect_agents_selects ["pool"%string] two_agents [] H).
Defined.

(** X8 on an inventory whose last entry has no name. *)
Lemma run_stops_on_entry_without_keys_witness :
  servers_file nameless_env = Some ["pool"%string]
  ∧ inventory nameless_env = Some (two_agents ++ [nameless_entry])
  ∧ nameless_entry ∈ two_agents ++ [nameless_entry]
  ∧ in_target_servers ["pool"%string] nameless_entry = true
  ∧ (Inventory.name nameless_entry = None
     ∨ Inventory.state nameless_entry = None)
  ∧ run nameless_env 1 1 empty_world = (Ok 1%Z, empty_world).
Proof.
  assert (nameless_entry ∈ two_agents ++ [nameless_entry]) as H3.
  { apply list_elem_of_In. simpl. tauto. }
  assert (in_target_servers ["pool"%string] nameless_entry = true) as H4.
  { vm_compute. reflexivity. }
  split; [reflexivity|]. split; [reflexivity|]. split; [exact H3|].
  split; [exact H4|]. split; [left; reflexivity|].
  exact (proj2 (run_stops_on_entry_without_keys nameless_env 1 1
                  ["pool"%string] (two_agents ++ [nameless_entry])
                  nameless_entry empty_world eq_refl eq_refl H3 H4
                  (or_introl eq_refl))).
Defined.

(** X9 on two agents on a failure streak of one. *)
Lemma rank_agents_keeps_ties_witness :
  (-1 <= 0)%Z
  ∧ List.filter (with_streak (-1))
      (rank_agents (reserved_env [])
                   [Agent "b" (-1); Agent "c" 3; Agent "a" (-1)])
    = List.filter (with_streak (-1))
                  [Agent "b" (-1); Agent "c" 3; Agent "a" (-1)].
Proof.
  assert (-1 <= 0)%Z as H by lia.
  split; [exact H|].
  exact (rank_agents_keeps_ties (reserved_env [])
           [Agent "b" (-1); Agent "c" 3; Agent "a" (-1)] (-1) H).
Defined.

(** X10 on an environment without a servers file. *)
Lemma run_fails_without_servers_file_witness :
  servers_file no_servers_env = None
  ∧ run no_servers_env 15 11 empty_world = (Ok 1%Z, empty_world).
Proof.
  split; [reflexivity|].
  exact (run_fails_without_servers_file no_servers_env 15 11 empty_world eq_refl).
Defined.

(** X11 on an environment without an inventory. *)
Lemma run_fails_without_inventory_witness :
  inventory no_inventory_env = None
  ∧ servers_file no_inventory_env = Some ["pool"%string]
  ∧ (0 < 15)%Z
  ∧ run no_inventory_env 15 11 empty_world = (Ok 1%Z, empty_world).
Proof.
  assert (0 < 15)%Z as H by lia.
  split; [reflexivity|]. split; [reflexivity|]. split; [exact H|].
  exact (run_fails_without_inventory no_inventory_env 15 11 ["pool"%string]
           empty_world eq_refl eq_refl H).
Defined.

(** X12 on the inventory whose last entry has no name. *)
Lemma KeyError_comes_from_an_entry_without_keys_witness :
  fst (get_available_agents nameless_env ["pool"%string] empty_world)
  = Raise KeyError
  ∧ ∃ data entry,
      inventory nameless_env = Some data ∧ entry ∈ data
      ∧ in_target_servers ["pool"%string] entry = true
      ∧ (Inventory.name entry = None ∨ Inventory.state entry = None).
Proof.
  assert (fst (get_available_agents nameless_env ["pool"%string] empty_world)
          = Raise KeyError) as H.
  { vm_compute. reflexivity. }
  split; [exact H|].
  exact (KeyError_comes_from_an_entry_without_keys nameless_env
           ["pool"%string] empty_world H).
Defined.

(** X13 on two agents. *)
Lemma generated_files_are_listed_witness :
  (∀ t a, render (reserved_env []) t a ≠ FailsBeforeOpen)
  ∧ "a2"%string ∈ ["a1"; "a2"]%string
  ∧ PyStr.contains "/" "a2" = false
  ∧ in_output_dir (job_file_of "a2")
    ∈ listed (snd (generate_yaml_files (reserved_env []) ["a1"; "a2"]%string
                     stale_world)).
Proof.
  assert (∀ t a, render (reserved_env []) t a ≠ FailsBeforeOpen) as H1.
  { intros t a. simpl. discriminate. }
  assert ("a2"%string ∈ ["a1"; "a2"]%string) as H2.
  { apply list_elem_of_In. simpl. tauto. }
  assert (PyStr.contains "/" "a2" = false) as H3.
  { vm_compute. reflexivity. }
  split; [exact H1|]. split; [exact H2|]. split; [exact H3|].
  exact (generated_files_are_listed (reserved_env []) ["a1"; "a2"]%string
           stale_world "a2" H1 H2 H3).
Defined.

(** X14 on the output directory with a stale description. *)
Lemma delete_yaml_files_removes_job_files_witness :
  (∀ t p, remove_raises (reserved_env []) t p = false)
  ∧ output_dir (snd (delete_yaml_files (reserved_env []) stale_world))
    = other_files stale_world
  ∧ listed (snd (delete_yaml_files (reserved_env []) stale_world)) = [].
Proof.
  assert (∀ t p, remove_raises (reserved_env []) t p = false) as H.
  { intros t p. reflexivity. }
  split; [exact H|].
  exact (proj2 (delete_yaml_files_removes_job_files (reserved_env []) stale_world)
               H).
Defined.

(** X15 on the same directory and one agent. *)
Lemma only_fresh_files_are_listed_witness :
  (∀ t p, remove_raises (reserved_env []) t p = false)
  ∧ in_output_dir (job_file_of "a1")
    ∈ listed (snd (generate_yaml_files (reserved_env []) ["a1"%string]
                     (snd (delete_yaml_files (reserved_env []) stale_world))))
  ∧ ∃ agent, agent ∈ ["a1"%string]
             ∧ in_output_dir (job_file_of "a1") = in_output_dir (job_file_of agent).
Proof.
  assert (∀ t p, remove_raises (reserved_env []) t p = false) as H1.
  { intros t p. reflexivity. }
  assert (in_output_dir (job_file_of "a1")
          ∈ listed (snd (generate_yaml_files (reserved_env []) ["a1"%string]
                           (snd (delete_yaml_files (reserved_env [])
                                                   stale_world))))) as H2.
  { apply list_elem_of_In. vm_compute. left. reflexivity. }
  split; [exact H1|]. split; [exact H2|].
  exact (only_fresh_files_are_listed (reserved_env []) ["a1"%string] stale_world
           _ H1 H2).
Defined.

(** X18 on one job that ends without an endpoint, with a threshold of one. *)
Lemma monitor_subjobs_quiet_below_threshold_witness :
  fst (monitor_subjobs (reserved_env lone_schedule) ["a"%string] 1 empty_world)
  = Ok 0%Z
  ∧ (0 < 1)%Z
  ∧ trace (snd (monitor_subjobs (reserved_env lone_schedule) ["a"%string] 1
                  empty_world)) = trace empty_world
  ∧ cancelled_jobs (snd (monitor_subjobs (reserved_env lone_schedule)
                           ["a"%string] 1 empty_world))
    = cancelled_jobs empty_world.
Proof.
  assert (fst (monitor_subjobs (reserved_env lone_schedule) ["a"%string] 1
                 empty_world) = Ok 0%Z) as H1.
  { vm_compute. reflexivity. }
  assert (0 < 1)%Z as H2 by lia.
  split; [exact H1|]. split; [exact H2|].
  exact (monitor_subjobs_quiet_below_threshold (reserved_env lone_schedule)
           ["a"%string] 1 0 empty_world H1 H2).
Defined.

(** X20 on the three jobs with a threshold of two. *)
Lemma sweep_signals_all_but_trigger_witness :
  ∃ p w',
    steps (reserved_env race_schedule) 2 race_schedule (new_pool race_jobs)
          empty_world = (Ok p, w')
    ∧ left_loop p = true
    ∧ ∃ trigger,
        last (completed_futures p) = Some trigger
        ∧ trigger ∈ race_jobs
        ∧ (2 <= completed_count p)%Z
        ∧ cancellation_tokens p !! trigger = Some false
        ∧ ∀ j, j ∈ race_jobs → j ≠ trigger →
               cancellation_tokens p !! j = Some true.
Proof.
  destruct (steps (reserved_env race_schedule) 2 race_schedule
                  (new_pool race_jobs) empty_world) as [[p|e] w'] eqn:Hsteps.
  - assert (left_loop p = true) as Hleft.
    { assert (match steps (reserved_env race_schedule) 2 race_schedule
                          (new_pool race_jobs) empty_world with
              | (Ok p0, _) => left_loop p0
              | _ => false
              end = true) as Hc by (vm_compute; reflexivity).
      rewrite Hsteps in Hc. exact Hc. }
    exists p, w'. split; [reflexivity|]. split; [exact Hleft|].
    exact (sweep_signals_all_but_trigger (reserved_env race_schedule) race_jobs
             2 race_schedule empty_world w' p Hsteps Hleft).
  - exfalso.
    assert (match steps (reserved_env race_schedule) 2 race_schedule
                        (new_pool race_jobs) empty_world with
            | (Ok _, _) => true
            | _ => false
            end = true) as Hc by (vm_compute; reflexivity).
    rewrite Hsteps in Hc. discriminate.
Defined.

(** X21 on a record without a job identifier and a reserved one. *)
Lemma verify_results_keeps_a_sublist_witness :
  fst (verify_results (reserved_env [])
         [Result "" "" ""; Result "10.0.0.1" "j1" "X"] empty_world)
  = Ok [Result "10.0.0.1" "j1" "X"]
  ∧ sublist [Result "10.0.0.1" "j1" "X"]
            [Result "" "" ""; Result "10.0.0.1" "j1" "X"]
  ∧ Forall (fun r => job_id r ≠ ""%string) [Result "10.0.0.1" "j1" "X"].
Proof.
  assert (fst (verify_results (reserved_env [])
                 [Result "" "" ""; Result "10.0.0.1" "j1" "X"] empty_world)
          = Ok [Result "10.0.0.1" "j1" "X"]) as H.
  { vm_compute. reflexivity. }
  split; [exact H|].
  exact (verify_results_keeps_a_sublist (reserved_env [])
           [Result "" "" ""; Result "10.0.0.1" "j1" "X"] empty_world
           [Result "10.0.0.1" "j1" "X"] H).
Defined.

(** X22 on a service whose every command fails. *)
Lemma cancel_all_reaches_every_job_witness :
  "j1"%string ∈ ["j1"; "j2"]%string
  ∧ ("j1"%string ∈ cancelled_jobs
                     (snd (cancel_all failing_env ["j1"; "j2"]%string empty_world))
     ∨ (cancel_commands "j1" (trace empty_world)
        < cancel_commands "j1"
            (trace (snd (cancel_all failing_env ["j1"; "j2"]%string
                           empty_world))))%nat).
Proof.
  assert ("j1"%string ∈ ["j1"; "j2"]%string) as H.
  { apply list_elem_of_In. simpl. tauto. }
  split; [exact H|].
  exact (cancel_all_reaches_every_job failing_env ["j1"; "j2"]%string
           empty_world "j1" H).
Defined.

(** X24 on a monitor whose token was set while the job was still reserved. *)
Lemma monitor_subjob_cleans_up_witness :
  true = true
  ∧ ("job1"%string
     ∈ cancelled_jobs (snd (monitor_subjob (reserved_env []) "job1" false
                              [Out "Provisioning"] true empty_world))
     ∨ (cancel_commands "job1" (trace empty_world)
        < cancel_commands "job1"
            (trace (snd (monitor_subjob (reserved_env []) "job1" false
                           [Out "Provisioning"] true empty_world))))%nat).
Proof.
  split; [reflexivity|].
  exact (proj2 (monitor_subjob_cleans_up (reserved_env []) "job1" false
                  [Out "Provisioning"] true empty_world) eq_refl).
Defined.
